(** * Linh Animation: the image-generation front end

    A shallow embedding of the client-side orchestration around the
    Gemini image-generation call:

    - [utils.ts]: [stripDataPrefix];
    - [services/geminiService.ts]: [generateImageWithGemini] (request
      parts, response decoding, classification of upstream errors);
    - [App.tsx]: the handlers [handleGenerateImages], [handleSaveImage]
      and [handleToggleCharacterSelect] over the component state.

    Strings are JavaScript strings, that is sequences of UTF-16 code
    units.  React state is an explicit record; a handler is a function
    producing the ordered list of setter calls it makes.  Effects outside
    React (network requests, the [window.aistudio] hook, alerts, local
    storage) are threaded through explicit world records. *)

From Stdlib Require Import List String Ascii NArith ZArith Lia Bool.
From Stdlib Require Import DecimalString DecimalN DecimalZ DecimalNat.
From Stdlib Require Import Permutation.
Import ListNotations.

(* ================================================================== *)
(** ** JavaScript strings and thrown values                            *)
(* ================================================================== *)

Module JS.

(** A UTF-16 code unit, [0 <= c < 65536]. *)
Definition code_unit := N.

Definition js_string := list code_unit.

(** Source literals are written in UTF-8 in this file; [utf16] decodes
    the bytes of a literal into the code units the JavaScript engine
    holds for it (a code point above [0xFFFF] becomes a surrogate
    pair). *)
Fixpoint utf16_of_utf8 (bs : list N) : js_string :=
  match bs with
  | [] => []
  | b0 :: r0 =>
    if (b0 <? 128)%N then b0 :: utf16_of_utf8 r0
    else match r0 with
    | [] => [b0]
    | b1 :: r1 =>
      if (b0 <? 224)%N then
        ((b0 - 192) * 64 + (b1 - 128))%N :: utf16_of_utf8 r1
      else match r1 with
      | [] => [b0; b1]
      | b2 :: r2 =>
        if (b0 <? 240)%N then
          ((b0 - 224) * 4096 + (b1 - 128) * 64 + (b2 - 128))%N
            :: utf16_of_utf8 r2
        else match r2 with
        | [] => [b0; b1; b2]
        | b3 :: r3 =>
          let cp := ((b0 - 240) * 262144 + (b1 - 128) * 4096
                     + (b2 - 128) * 64 + (b3 - 128))%N in
          let v := (cp - 65536)%N in
          (55296 + v / 1024)%N :: (56320 + v mod 1024)%N
            :: utf16_of_utf8 r3
        end
      end
    end
  end.

Definition utf16 (s : string) : js_string :=
  utf16_of_utf8 (List.map N_of_ascii (list_ascii_of_string s)).

Definition code_unit_eqb (a b : code_unit) : bool := (a =? b)%N.

Fixpoint js_string_eqb (a b : js_string) : bool :=
  match a, b with
  | [], [] => true
  | x :: a', y :: b' => code_unit_eqb x y && js_string_eqb a' b'
  | _, _ => false
  end.

(** [s.startsWith(p)] *)
Fixpoint startsWith (s p : js_string) {struct p} : bool :=
  match p, s with
  | [], _ => true
  | _ :: _, [] => false
  | c :: p', d :: s' => code_unit_eqb c d && startsWith s' p'
  end.

(** [s.indexOf(p)]: index of the first occurrence, [-1] when there is
    none. *)
Fixpoint indexOf (s p : js_string) : Z :=
  if startsWith s p then 0%Z
  else match s with
  | [] => (-1)%Z
  | _ :: s' =>
    let i := indexOf s' p in
    if (i =? -1)%Z then (-1)%Z else (i + 1)%Z
  end.

(** [s.includes(p)] *)
Fixpoint includes (s p : js_string) : bool :=
  startsWith s p ||
  match s with
  | [] => false
  | _ :: s' => includes s' p
  end.

(** [s.substring(i)] with one argument; a negative [i] counts as 0 and
    an [i] past the end gives the empty string. *)
Definition substring (s : js_string) (i : Z) : js_string :=
  skipn (Z.to_nat i) s.

(** White space and line terminators removed by [String.prototype.trim]. *)
Definition is_white_space (c : code_unit) : bool :=
  ((9 <=? c) && (c <=? 13) || (c =? 32) || (c =? 160) || (c =? 5760)
   || (8192 <=? c) && (c <=? 8202) || (c =? 8232) || (c =? 8233)
   || (c =? 8239) || (c =? 8287) || (c =? 12288) || (c =? 65279))%N.

Fixpoint trimStart (s : js_string) : js_string :=
  match s with
  | c :: s' => if is_white_space c then trimStart s' else s
  | [] => []
  end.

Definition trimEnd (s : js_string) : js_string :=
  rev (trimStart (rev s)).

Definition trim (s : js_string) : js_string := trimEnd (trimStart s).

(** Truthiness of a string: every string but the empty one. *)
Definition truthy (s : js_string) : bool :=
  match s with [] => false | _ :: _ => true end.

(** Truthiness of a [string | null] (or [string | undefined]) value. *)
Definition truthy_opt (s : option js_string) : bool :=
  match s with Some t => truthy t | None => false end.

(** Decimal text of a non-negative integer, as [String(n)] gives it. *)
Fixpoint digits_of_uint (d : Decimal.uint) : js_string :=
  match d with
  | Decimal.Nil => []
  | Decimal.D0 d' => 48%N :: digits_of_uint d'
  | Decimal.D1 d' => 49%N :: digits_of_uint d'
  | Decimal.D2 d' => 50%N :: digits_of_uint d'
  | Decimal.D3 d' => 51%N :: digits_of_uint d'
  | Decimal.D4 d' => 52%N :: digits_of_uint d'
  | Decimal.D5 d' => 53%N :: digits_of_uint d'
  | Decimal.D6 d' => 54%N :: digits_of_uint d'
  | Decimal.D7 d' => 55%N :: digits_of_uint d'
  | Decimal.D8 d' => 56%N :: digits_of_uint d'
  | Decimal.D9 d' => 57%N :: digits_of_uint d'
  end.

Definition minus_sign : code_unit := 45%N.

(** Text of an array index. *)
Definition string_of_index (i : nat) : js_string :=
  digits_of_uint (Nat.to_uint i).

(** Text of an integral number such as the value of [Date.now()]. *)
Definition string_of_integer (z : Z) : js_string :=
  match Z.to_int z with
  | Decimal.Pos d => digits_of_uint d
  | Decimal.Neg d => minus_sign :: digits_of_uint d
  end.

(** The values a promise may reject with, as far as the handlers
    distinguish them: [instanceof Error] and the [message] property. *)
Inductive js_value : Type :=
| JsUndefined
| JsNull
| JsString (s : js_string)
| JsObject (message : option js_string)
| JsError (message : js_string).

(** [`${(v as Error).message}`]: reading the property of [undefined] or
    [null] raises a [TypeError], written [None]; a missing property
    reads as [undefined] and is printed so by the template. *)
Definition message_text (v : js_value) : option js_string :=
  match v with
  | JsUndefined | JsNull => None
  | JsString _ => Some (utf16 "undefined")
  | JsObject None => Some (utf16 "undefined")
  | JsObject (Some m) => Some m
  | JsError m => Some m
  end.

End JS.

Import JS.

(* ================================================================== *)
(** ** utils.ts                                                        *)
(* ================================================================== *)

Module Utils.

Definition stripDataPrefix (base64String : js_string) : js_string :=
  if startsWith base64String (utf16 "data:") then
    let commaIndex := indexOf base64String (utf16 ",") in
    if negb (commaIndex =? -1)%Z then
      substring base64String (commaIndex + 1)
    else base64String
  else base64String.

End Utils.

(* ================================================================== *)
(** ** services/geminiService.ts                                       *)
(* ================================================================== *)

Module GeminiService.

(** [{ base64: string; mimeType: string }] *)
Record ImageRef : Type := {
  base64 : js_string;
  mimeType : js_string
}.

Record GenerateImageParams : Type := {
  characterImages : list (option ImageRef);
  backgroundImage : option ImageRef;
  useBackground : bool;
  prompt : js_string
}.

(** [{ mimeType, data }], the payload of an inline-image part, in a
    request as well as in a response. *)
Record InlineData : Type := {
  inline_mimeType : js_string;
  data : js_string
}.

(** A request part: [{ text }] or [{ inlineData }]. *)
Inductive Part : Type :=
| TextPart (text : js_string)
| InlineDataPart (inlineData : InlineData).

(** [parts.push(x)] on the array under construction. *)
Definition push {A : Type} (parts : list A) (x : A) : list A :=
  parts ++ [x].

Definition image_part (img : ImageRef) : Part :=
  InlineDataPart {| inline_mimeType := mimeType img;
                    data := Utils.stripDataPrefix (base64 img) |}.

(** The loop body of [for (const charImage of params.characterImages)]. *)
Definition push_character (parts : list Part) (charImage : option ImageRef)
  : list Part :=
  match charImage with
  | Some img => if truthy (base64 img) then push parts (image_part img)
                else parts
  | None => parts
  end.

(** The [parts] array as it stands when the request is sent. *)
Definition request_parts (params : GenerateImageParams) : list Part :=
  let parts := [] in
  let parts := push parts (TextPart (prompt params)) in
  let parts :=
    match backgroundImage params with
    | Some bg =>
      if useBackground params && truthy (base64 bg)
      then push parts (image_part bg) else parts
    | None => parts
    end in
  fold_left push_character (characterImages params) parts.

(** The response of [ai.models.generateContent], every level optional
    as the optional chaining of the source expects. *)
Record ResponsePart : Type := {
  part_inlineData : option InlineData;
  part_text : option js_string
}.

Record Content : Type := { parts : option (list ResponsePart) }.

Record Candidate : Type := { content : option Content }.

Record GenerateContentResponse : Type := {
  candidates : option (list Candidate)
}.

(** [a?.[0]] *)
Definition first {A : Type} (a : option (list A)) : option A :=
  match a with
  | Some (x :: _) => Some x
  | _ => None
  end.

Definition bind {A B : Type} (a : option A) (f : A -> option B)
  : option B :=
  match a with Some x => f x | None => None end.

(** [response.candidates?.[0]?.content?.parts?.[0]?.inlineData] *)
Definition generatedImagePart (response : GenerateContentResponse)
  : option InlineData :=
  bind (first (candidates response)) (fun candidate =>
  bind (content candidate) (fun c =>
  bind (first (parts c)) part_inlineData)).

(** The outcome of the external call: a response, or a rejection. *)
Inductive api_reply : Type :=
| Fulfilled (response : GenerateContentResponse)
| RejectedWith (error : js_value).

(** The settled value of a promise. *)
Inductive settled (A : Type) : Type :=
| Resolved (value : A)
| Rejected (reason : js_value).

Arguments Resolved {A} value.
Arguments Rejected {A} reason.

(** [window.aistudio], when the host provides it.  Calling the hook is
    fire-and-forget: the call is counted and what it returns (a promise)
    is not looked at.  The call itself may still raise;
    [openSelectKey_raises] is the value it raises when it does. *)
Record AiStudio : Type := {
  openSelectKey_is_function : bool;
  openSelectKey_raises : option js_value
}.

Record Env : Type := {
  API_KEY : option js_string;
  aistudio : option AiStudio
}.

Record GenerateContentRequest : Type := {
  model : js_string;
  contents_parts : list Part;
  responseModalities : list js_string
}.

(** What the service does to the outside: the requests it has sent and
    the number of times it has called [window.aistudio.openSelectKey]. *)
Record World : Type := {
  requests : list GenerateContentRequest;
  openSelectKey_calls : nat
}.

Definition send (r : GenerateContentRequest) (w : World) : World :=
  {| requests := requests w ++ [r];
     openSelectKey_calls := openSelectKey_calls w |}.

Definition openSelectKey (w : World) : World :=
  {| requests := requests w;
     openSelectKey_calls := S (openSelectKey_calls w) |}.

(** [window.aistudio && typeof window.aistudio.openSelectKey === 'function'] *)
Definition hook_available (env : Env) : bool :=
  match aistudio env with
  | Some a => openSelectKey_is_function a
  | None => false
  end.

Definition RESOURCE_EXHAUSTED : js_string := utf16 "RESOURCE_EXHAUSTED".

Definition NOT_FOUND : js_string := utf16 "Requested entity was not found.".

Definition no_api_key_message : js_string :=
  utf16 "API_KEY is not defined in environment variables.".

Definition no_image_message : js_string :=
  utf16 "Could not generate image: No image data returned.".

Definition quota_message_reselect : js_string :=
  utf16 "Hạn mức API đã hết. Vui lòng kiểm tra gói dịch vụ và chi tiết thanh toán của bạn, hoặc thử chọn một khóa API khác. "
  ++ utf16 "Bạn có thể tìm thêm thông tin tại: ai.google.dev/gemini-api/docs/rate-limits".

Definition quota_message : js_string :=
  utf16 "Hạn mức API đã hết. Vui lòng kiểm tra gói dịch vụ và chi tiết thanh toán của bạn. "
  ++ utf16 "Bạn có thể tìm thêm thông tin tại: ai.google.dev/gemini-api/docs/rate-limits".

Definition invalid_key_message_reselect : js_string :=
  utf16 "Khóa API không hợp lệ. Vui lòng thử lại sau khi chọn khóa.".

Definition invalid_key_message : js_string :=
  utf16 "Khóa API không hợp lệ. Vui lòng kiểm tra khóa API của bạn.".

(** What the call [window.aistudio.openSelectKey()] raises, if it
    raises. *)
Definition hook_raises (env : Env) : option js_value :=
  match aistudio env with
  | Some a => openSelectKey_raises a
  | None => None
  end.

(** The body shared by the two classified branches:
    [if (window.aistudio && ...) { window.aistudio.openSelectKey();
       throw new Error(with_hook); } else { throw new Error(without_hook); }].
    An exception of the hook leaves the block in place of the error
    that the next statement would have thrown. *)
Definition reselect_and_throw (env : Env)
  (with_hook without_hook : js_string) (w : World) : js_value * World :=
  if hook_available env then
    let w := openSelectKey w in
    match hook_raises env with
    | Some raised => (raised, w)
    | None => (JsError with_hook, w)
    end
  else (JsError without_hook, w).

(** [error instanceof Error && error.message.includes(needle)] *)
Definition error_includes (error : js_value) (needle : js_string) : bool :=
  match error with
  | JsError message => includes message needle
  | _ => false
  end.

(** The [catch (error)] block: the value it throws and the world it
    leaves. *)
Definition catch_block (env : Env) (error : js_value) (w : World)
  : js_value * World :=
  if error_includes error RESOURCE_EXHAUSTED then
    reselect_and_throw env quota_message_reselect quota_message w
  else if error_includes error NOT_FOUND then
    reselect_and_throw env invalid_key_message_reselect invalid_key_message w
  else (error, w).

(** The [try] block once the external call has settled. *)
Definition try_block (reply : api_reply) : settled js_string :=
  match reply with
  | Fulfilled response =>
    match generatedImagePart response with
    | Some g =>
      Resolved (utf16 "data:" ++ inline_mimeType g
                ++ utf16 ";base64," ++ data g)
    | None => Rejected (JsError no_image_message)
    end
  | RejectedWith error => Rejected error
  end.

(** The argument of [ai.models.generateContent]. *)
Definition generateContent_request (parts : list Part)
  : GenerateContentRequest :=
  {| model := utf16 "gemini-2.5-flash-image";
     contents_parts := parts;
     responseModalities := [utf16 "IMAGE"] |}.

(** [generateImageWithGemini(params)], given what the external call
    answers: the settled value of the returned promise, and the world
    afterwards.  The function is [async]: the error of the missing key,
    raised before the [try], is a rejection as well.  Console output is
    left out. *)
Definition generateImageWithGemini (env : Env) (params : GenerateImageParams)
  (reply : api_reply) (w : World) : settled js_string * World :=
  if negb (truthy_opt (API_KEY env)) then
    (Rejected (JsError no_api_key_message), w)
  else
    let parts := request_parts params in
    let w := send (generateContent_request parts) w in
    match try_block reply with
    | Resolved uri => (Resolved uri, w)
    | Rejected error =>
      let (thrown, w) := catch_block env error w in
      (Rejected thrown, w)
    end.

End GeminiService.

(* ================================================================== *)
(** ** App.tsx and types.ts                                            *)
(* ================================================================== *)

Module App.

Import GeminiService.

(** The part of a DOM [File] the handlers read: its MIME [type]. *)
Record File : Type := {
  file_name : js_string;
  file_type : js_string
}.

Inductive AspectRatio : Type :=
| Ratio_1_1 | Ratio_4_3 | Ratio_3_4 | Ratio_16_9 | Ratio_9_16.

Record CharacterImage : Type := {
  char_id : js_string;
  char_file : option File;
  char_base64 : option js_string;
  char_selected : bool;
  char_previewUrl : option js_string
}.

Record BackgroundImage : Type := {
  bg_file : option File;
  bg_base64 : option js_string;
  bg_previewUrl : option js_string;
  bg_useBackground : bool
}.

Record StoredImage : Type := {
  id : js_string;
  url : js_string;
  timestamp : Z
}.

(** The [useState] cells of the component. *)
Record AppState : Type := {
  st_characterImages : list CharacterImage;
  st_backgroundImage : BackgroundImage;
  st_prompt : js_string;
  st_generatedImages : list js_string;
  st_loading : bool;
  st_error : option js_string;
  st_savedImages : list StoredImage;
  st_selectedAspectRatio : AspectRatio
}.

(** A call of one of the state setters.  The setters of
    [generatedImages] and [characterImages] are called with an updater
    function, which React applies to the state current at that time.
    React may render once for several calls made in one synchronous
    stretch; the calls are made, and applied, in program order. *)
Inductive SetState : Type :=
| setLoading (value : bool)
| setError (value : option js_string)
| setGeneratedImages (updater : list js_string -> list js_string)
| setCharacterImages
    (updater : list CharacterImage -> list CharacterImage)
| setSavedImages (value : list StoredImage).

Definition apply_set (st : AppState) (call : SetState) : AppState :=
  match call with
  | setLoading b =>
    {| st_characterImages := st_characterImages st;
       st_backgroundImage := st_backgroundImage st;
       st_prompt := st_prompt st;
       st_generatedImages := st_generatedImages st;
       st_loading := b;
       st_error := st_error st;
       st_savedImages := st_savedImages st;
       st_selectedAspectRatio := st_selectedAspectRatio st |}
  | setError e =>
    {| st_characterImages := st_characterImages st;
       st_backgroundImage := st_backgroundImage st;
       st_prompt := st_prompt st;
       st_generatedImages := st_generatedImages st;
       st_loading := st_loading st;
       st_error := e;
       st_savedImages := st_savedImages st;
       st_selectedAspectRatio := st_selectedAspectRatio st |}
  | setGeneratedImages f =>
    {| st_characterImages := st_characterImages st;
       st_backgroundImage := st_backgroundImage st;
       st_prompt := st_prompt st;
       st_generatedImages := f (st_generatedImages st);
       st_loading := st_loading st;
       st_error := st_error st;
       st_savedImages := st_savedImages st;
       st_selectedAspectRatio := st_selectedAspectRatio st |}
  | setCharacterImages f =>
    {| st_characterImages := f (st_characterImages st);
       st_backgroundImage := st_backgroundImage st;
       st_prompt := st_prompt st;
       st_generatedImages := st_generatedImages st;
       st_loading := st_loading st;
       st_error := st_error st;
       st_savedImages := st_savedImages st;
       st_selectedAspectRatio := st_selectedAspectRatio st |}
  | setSavedImages l =>
    {| st_characterImages := st_characterImages st;
       st_backgroundImage := st_backgroundImage st;
       st_prompt := st_prompt st;
       st_generatedImages := st_generatedImages st;
       st_loading := st_loading st;
       st_error := st_error st;
       st_savedImages := l;
       st_selectedAspectRatio := st_selectedAspectRatio st |}
  end.

(** The state once every setter call of a handler has been applied. *)
Definition run (st : AppState) (calls : list SetState) : AppState :=
  fold_left apply_set calls st.

(** The state after each setter call, in order. *)
Fixpoint steps (st : AppState) (calls : list SetState) : list AppState :=
  match calls with
  | [] => []
  | c :: calls' => let st' := apply_set st c in st' :: steps st' calls'
  end.

(** [prev.map((char, i) => f(char, i))] *)
Fixpoint mapi_from {A B : Type} (f : A -> nat -> B) (i : nat) (l : list A)
  : list B :=
  match l with
  | [] => []
  | x :: l' => f x i :: mapi_from f (S i) l'
  end.

Definition mapi {A B : Type} (f : A -> nat -> B) (l : list A) : list B :=
  mapi_from f 0 l.

Definition handleToggleCharacterSelect (index : nat) (selected : bool)
  : list SetState :=
  [setCharacterImages (fun prev =>
     mapi (fun char i =>
       if Nat.eqb i index then
         {| char_id := char_id char;
            char_file := char_file char;
            char_base64 := char_base64 char;
            char_selected := selected;
            char_previewUrl := char_previewUrl char |}
       else char) prev)].

(** [char.selected && char.base64 && char.file] *)
Definition is_selected (char : CharacterImage) : bool :=
  char_selected char && truthy_opt (char_base64 char)
  && match char_file char with Some _ => true | None => false end.

(** [{ base64: char.base64!, mimeType: char.file!.type }]; the filter
    before it lets through only entries where both are present. *)
Definition to_image_ref (char : CharacterImage) : ImageRef :=
  {| base64 := match char_base64 char with Some b => b | None => [] end;
     mimeType := match char_file char with
                 | Some f => file_type f
                 | None => []
                 end |}.

Definition selectedCharImages (st : AppState) : list ImageRef :=
  List.map to_image_ref (List.filter is_selected (st_characterImages st)).

Definition bgImage (st : AppState) : option ImageRef :=
  let backgroundImage := st_backgroundImage st in
  match bg_file backgroundImage, bg_base64 backgroundImage with
  | Some file, Some b64 =>
    if bg_useBackground backgroundImage && truthy b64
    then Some {| base64 := b64; mimeType := file_type file |}
    else None
  | _, _ => None
  end.

Definition no_image_selected_message : js_string :=
  utf16 "Vui lòng tải lên và chọn ít nhất một ảnh nhân vật hoặc sử dụng ảnh nền.".

Definition empty_prompt_message : js_string :=
  utf16 "Vui lòng nhập mô tả cho việc tạo ảnh.".

Definition aspectRatioText (r : AspectRatio) : js_string :=
  match r with
  | Ratio_4_3 => utf16 "4:3"
  | Ratio_3_4 => utf16 "3:4"
  | Ratio_16_9 => utf16 "16:9"
  | Ratio_9_16 => utf16 "9:16"
  | Ratio_1_1 => utf16 "1:1 (hình vuông)"
  end.

Definition orientationHint (r : AspectRatio) : js_string :=
  match r with
  | Ratio_4_3 => utf16 "định hướng NẰM NGANG (LANDSCAPE)"
  | Ratio_3_4 => utf16 "định hướng DỌC (PORTRAIT)"
  | Ratio_16_9 => utf16 "định hướng NẰM NGANG (LANDSCAPE)"
  | Ratio_9_16 => utf16 "định hướng DỌC (PORTRAIT)"
  | Ratio_1_1 => utf16 "định hướng VUÔNG (SQUARE)"
  end.

Definition isSome {A : Type} (o : option A) : bool :=
  match o with Some _ => true | None => false end.

Definition finalPrompt (st : AppState) : js_string :=
  let ratio := aspectRatioText (st_selectedAspectRatio st) in
  let hint := orientationHint (st_selectedAspectRatio st) in
  let finalPrompt :=
    utf16 "Tạo một hình ảnh hoạt hình ĐỘ PHÂN GIẢI CAO (4K) với TỶ LỆ KHUNG HÌNH CHÍNH XÁC LÀ "
    ++ ratio
    ++ utf16 ". Đây là YÊU CẦU BẮT BUỘC TUYỆT ĐỐI. Hình ảnh đầu ra PHẢI có "
    ++ hint ++ utf16 "." in
  let finalPrompt := finalPrompt
    ++ utf16 " Đảm bảo phong cách hoạt hình, và tính đồng nhất của nhân vật từ các ảnh tham chiếu đã cung cấp." in
  let finalPrompt :=
    if bg_useBackground (st_backgroundImage st) && isSome (bgImage st)
    then finalPrompt
      ++ utf16 " Sử dụng hình ảnh đính kèm đầu tiên làm bối cảnh chính, KHÔNG thay đổi hoặc thêm vào bối cảnh hiện có."
    else finalPrompt in
  let finalPrompt := finalPrompt
    ++ utf16 " Mô tả chi tiết: " ++ trim (st_prompt st) ++ utf16 "." in
  finalPrompt
    ++ utf16 " HÌNH ẢNH CUỐI CÙNG PHẢI TUÂN THỦ TỶ LỆ KHUNG HÌNH "
    ++ ratio ++ utf16 " VÀ " ++ hint ++ utf16 ".".

(** The argument both calls of [generateImageWithGemini] receive. *)
Definition generate_params (st : AppState) : GenerateImageParams :=
  {| characterImages := List.map Some (selectedCharImages st);
     backgroundImage := bgImage st;
     useBackground := bg_useBackground (st_backgroundImage st);
     prompt := finalPrompt st |}.

(** Which of the two promises settles first. *)
Inductive call_index : Type := FirstCall | SecondCall.

(** [Promise.all([p1, p2])]: both values in order of the array, or the
    reason of the promise that rejects first. *)
Definition Promise_all {A : Type} (p1 p2 : settled A)
  (first_settled : call_index) : settled (list A) :=
  match p1, p2 with
  | Resolved a, Resolved b => Resolved [a; b]
  | Rejected e, Resolved _ => Rejected e
  | Resolved _, Rejected e => Rejected e
  | Rejected e1, Rejected e2 =>
    match first_settled with
    | FirstCall => Rejected e1
    | SecondCall => Rejected e2
    end
  end.

(** How the promise returned by an [async] handler settles: it returns,
    or an exception leaves it (here only the [TypeError] of reading
    [message] off [undefined] or [null] inside the [catch] block). *)
Inductive completion : Type :=
| Returned
| UncaughtTypeError.

Definition generation_error_prefix : js_string := utf16 "Lỗi tạo ảnh: ".

(** The two guards at the head of [handleGenerateImages]: the message
    of the one that rejects the action, if any.  Both leave the handler
    the same way: [setError(message); setLoading(false); return]. *)
Definition validation_error (st : AppState) : option js_string :=
  let selected := selectedCharImages st in
  let bg := bgImage st in
  if Nat.eqb (List.length selected) 0
     && (negb (isSome bg) || negb (bg_useBackground (st_backgroundImage st)))
  then Some no_image_selected_message
  else if negb (truthy (trim (st_prompt st)))
  then Some empty_prompt_message
  else None.

(** [Array.from({ length: 2 }).map(() => generateImageWithGemini(...))]:
    the two promises, and the world once both calls are over. *)
Definition generateCalls (env : Env) (st : AppState)
  (reply1 reply2 : api_reply) (w : World)
  : settled js_string * settled js_string * World :=
  let params := generate_params st in
  let (p1, w) := generateImageWithGemini env params reply1 w in
  let (p2, w) := generateImageWithGemini env params reply2 w in
  (p1, p2, w).

(** [handleGenerateImages()] on the state [st] captured by the closure,
    given what the external call answers to each of the two requests
    and which answer comes first.  The result lists the setter calls in
    program order. *)
Definition handleGenerateImages (env : Env) (st : AppState)
  (reply1 reply2 : api_reply) (first_settled : call_index) (w : World)
  : list SetState * World * completion :=
  let begin := [setLoading true; setError None] in
  match validation_error st with
  | Some message =>
    (begin ++ [setError (Some message); setLoading false], w, Returned)
  | None =>
    let '(p1, p2, w) := generateCalls env st reply1 reply2 w in
    match Promise_all p1 p2 first_settled with
    | Resolved results =>
      (begin ++ [setGeneratedImages (fun prev => results ++ prev);
                 setLoading false],
       w, Returned)
    | Rejected err =>
      match message_text err with
      | Some errorMessage =>
        (begin ++ [setError (Some (generation_error_prefix ++ errorMessage));
                   setLoading false],
         w, Returned)
      | None => (begin ++ [setLoading false], w, UncaughtTypeError)
      end
    end
  end.

(** Browser-local storage and the dialogs of the page.  The slot under
    [LOCAL_STORAGE_KEY] is given by the list whose JSON text it holds;
    [setItem] raises when the browser refuses the new text (quota). *)
Record Browser : Type := {
  local_storage : option (list StoredImage);
  storage_accepts : list StoredImage -> bool;
  alerts : list js_string
}.

Definition alert (message : js_string) (b : Browser) : Browser :=
  {| local_storage := local_storage b;
     storage_accepts := storage_accepts b;
     alerts := alerts b ++ [message] |}.

(** [localStorage.setItem(LOCAL_STORAGE_KEY, JSON.stringify(value))];
    [None] when it raises. *)
Definition localStorage_setItem (value : list StoredImage) (b : Browser)
  : option Browser :=
  if storage_accepts b value then
    Some {| local_storage := Some value;
            storage_accepts := storage_accepts b;
            alerts := alerts b |}
  else None.

Definition save_ok_message : js_string :=
  utf16 "Ảnh đã được lưu thành công!".

Definition save_failed_message : js_string :=
  utf16 "Không thể lưu ảnh. Vui lòng thử lại.".

(** The record [handleSaveImage] builds; [now_id] and [now_timestamp]
    are the values of its two calls of [Date.now()]. *)
Definition newImage (imageUrl : js_string) (index : nat)
  (now_id now_timestamp : Z) : StoredImage :=
  {| id := string_of_integer now_id ++ utf16 "-" ++ string_of_index index;
     url := imageUrl;
     timestamp := now_timestamp |}.

Definition handleSaveImage (st : AppState) (imageUrl : js_string)
  (index : nat) (now_id now_timestamp : Z) (b : Browser)
  : list SetState * Browser :=
  let updatedSavedImages :=
    st_savedImages st ++ [newImage imageUrl index now_id now_timestamp] in
  let calls := [setSavedImages updatedSavedImages] in
  match localStorage_setItem updatedSavedImages b with
  | Some b => (calls, alert save_ok_message b)
  | None => (calls, alert save_failed_message b)
  end.

(** [savedImages.some(img => img.url === imageUrl)], which disables the
    save button of a generated image. *)
Definition isSaved (st : AppState) (imageUrl : js_string) : bool :=
  existsb (fun img => js_string_eqb (url img) imageUrl) (st_savedImages st).

End App.

Import Utils GeminiService App.

(* ================================================================== *)
(** ** Vocabulary of the statements                                    *)
(* ================================================================== *)

Definition data_prefix : js_string := utf16 "data:".

Definition comma : code_unit := 44%N.

(** The inline-image part of an image whose payload is present (the
    image is not [null] and its [base64] is not empty); nothing
    otherwise. *)
Definition part_if_present (img : option ImageRef) : list Part :=
  match img with
  | Some i => if truthy (base64 i) then [image_part i] else []
  | None => []
  end.


(** The message of a failure value can be read: the value is neither
    [undefined] nor [null]. *)
Definition readable (v : js_value) : Prop := message_text v <> None.


(** Setting the check box of one slot leaves the other slots, and the
    order of the slots, as they are. *)
Definition toggle (index : nat) (selected : bool) (st : AppState)
  : AppState :=
  run st (handleToggleCharacterSelect index selected).

(** A session of check-box clicks, oldest first: each click names the
    slot and the value it sets. *)
Definition toggles (clicks : list (nat * bool)) (st : AppState)
  : AppState :=
  fold_left (fun st click => toggle (fst click) (snd click) st) clicks st.

(* ================================================================== *)
(** ** States and replies used as examples                             *)
(* ================================================================== *)

Definition empty_character (n : string) : CharacterImage :=
  {| char_id := utf16 "char-" ++ utf16 n;
     char_file := None;
     char_base64 := None;
     char_selected := false;
     char_previewUrl := None |}.

(** The state of the component when it is mounted. *)
Definition initial_state : AppState :=
  {| st_characterImages :=
       [empty_character "1"; empty_character "2";
        empty_character "3"; empty_character "4"];
     st_backgroundImage :=
       {| bg_file := None; bg_base64 := None; bg_previewUrl := None;
          bg_useBackground := false |};
     st_prompt := [];
     st_generatedImages := [];
     st_loading := false;
     st_error := None;
     st_savedImages := [];
     st_selectedAspectRatio := Ratio_1_1 |}.

Definition png (name : string) : File :=
  {| file_name := utf16 name; file_type := utf16 "image/png" |}.

Definition uploaded_character (n name payload : string) : CharacterImage :=
  {| char_id := utf16 "char-" ++ utf16 n;
     char_file := Some (png name);
     char_base64 := Some (utf16 "data:image/png;base64," ++ utf16 payload);
     char_selected := true;
     char_previewUrl := Some (utf16 "blob:" ++ utf16 name) |}.

(** Two characters uploaded, a prompt typed in, one earlier result. *)
Definition ready_state : AppState :=
  {| st_characterImages :=
       [uploaded_character "1" "cat.png" "Q0FU";
        uploaded_character "2" "dog.png" "RE9H";
        empty_character "3"; empty_character "4"];
     st_backgroundImage :=
       {| bg_file := None; bg_base64 := None; bg_previewUrl := None;
          bg_useBackground := false |};
     st_prompt := utf16 " a cat and a dog ";
     st_generatedImages := [utf16 "data:image/png;base64,T0xE"];
     st_loading := false;
     st_error := None;
     st_savedImages := [];
     st_selectedAspectRatio := Ratio_1_1 |}.

(** The mounted page with the check box of the third slot ticked and no
    image uploaded. *)
Definition ticked_empty_state : AppState :=
  toggle 2 true initial_state.

Definition studio_env : Env :=
  {| API_KEY := Some (utf16 "key");
     aistudio := Some {| openSelectKey_is_function := true;
                         openSelectKey_raises := None |} |}.

(** A host whose key dialog fails to open. *)
Definition broken_studio_env : Env :=
  {| API_KEY := Some (utf16 "key");
     aistudio :=
       Some {| openSelectKey_is_function := true;
               openSelectKey_raises :=
                 Some (JsError (utf16 "dialog unavailable")) |} |}.

Definition plain_env : Env :=
  {| API_KEY := Some (utf16 "key"); aistudio := None |}.

Definition fresh_world : World :=
  {| requests := []; openSelectKey_calls := 0 |}.

Definition image_response (payload : string) : GenerateContentResponse :=
  {| candidates := Some
       [{| content := Some {| parts := Some
            [{| part_inlineData :=
                  Some {| inline_mimeType := utf16 "image/png";
                          data := utf16 payload |};
                part_text := None |}] |} |}] |}.

Definition text_response : GenerateContentResponse :=
  {| candidates := Some
       [{| content := Some {| parts := Some
            [{| part_inlineData := None;
                part_text := Some (utf16 "no image") |}] |} |}] |}.

(** A browser whose storage holds at most [n] saved images. *)
Definition browser_with_room (n : nat) (stored : list StoredImage)
  : Browser :=
  {| local_storage := Some stored;
     storage_accepts := fun l => Nat.leb (List.length l) n;
     alerts := [] |}.

(* ================================================================== *)
(** ** App.tsx, the other handlers; components/ImageUploadInput.tsx    *)
(* ================================================================== *)

Module Handlers.

(** The setters of the component: those of [SetState] and the setter of
    the background image, always called with an updater or a value
    built from one. *)
Inductive Setter : Type :=
| state_call (call : SetState)
| setBackgroundImage (updater : BackgroundImage -> BackgroundImage).

Definition apply_setter (st : AppState) (call : Setter) : AppState :=
  match call with
  | state_call c => apply_set st c
  | setBackgroundImage f =>
    {| st_characterImages := st_characterImages st;
       st_backgroundImage := f (st_backgroundImage st);
       st_prompt := st_prompt st;
       st_generatedImages := st_generatedImages st;
       st_loading := st_loading st;
       st_error := st_error st;
       st_savedImages := st_savedImages st;
       st_selectedAspectRatio := st_selectedAspectRatio st |}
  end.

Definition run_setters (st : AppState) (calls : list Setter) : AppState :=
  fold_left apply_setter calls st.

(** ['character' | 'background'] *)
Inductive ImageType : Type := character | background.

(** [{ id: char.id, file: null, base64: null, selected: false,
       previewUrl: null }] *)
Definition cleared (char : CharacterImage) : CharacterImage :=
  {| char_id := char_id char;
     char_file := None;
     char_base64 := None;
     char_selected := false;
     char_previewUrl := None |}.

Definition no_background : BackgroundImage :=
  {| bg_file := None; bg_base64 := None; bg_previewUrl := None;
     bg_useBackground := false |}.

(** The branch that clears an image, shared word for word by
    [handleFileChange] (no file) and [handleDeleteImage]. *)
Definition clear_image (type : ImageType) (index : option nat)
  : list Setter :=
  match type, index with
  | character, Some index =>
    [state_call (setCharacterImages (fun prev =>
       mapi (fun char i => if Nat.eqb i index then cleared char else char)
            prev))]
  | character, None => []
  | background, _ => [setBackgroundImage (fun _ => no_background)]
  end.

Definition file_error_prefix : js_string := utf16 "Failed to read file: ".

(** [handleFileChange(type, index, file)], given how the promise of
    [fileToBase64(file)] settles and the URL that
    [URL.createObjectURL(file)] returns. *)
Definition handleFileChange (type : ImageType) (index : option nat)
  (file : option File) (read : settled js_string) (previewUrl : js_string)
  : list Setter * completion :=
  let begin := [state_call (setError None)] in
  match file with
  | Some f =>
    match read with
    | Resolved base64 =>
      match type, index with
      | character, Some index =>
        (begin ++
         [state_call (setCharacterImages (fun prev =>
            mapi (fun char i =>
              if Nat.eqb i index then
                {| char_id := char_id char;
                   char_file := Some f;
                   char_base64 := Some base64;
                   char_selected := true;
                   char_previewUrl := Some previewUrl |}
              else char) prev))],
         Returned)
      | character, None => (begin, Returned)
      | background, _ =>
        (begin ++
         [setBackgroundImage (fun prev =>
            {| bg_file := Some f;
               bg_base64 := Some base64;
               bg_previewUrl := Some previewUrl;
               bg_useBackground := true |})],
         Returned)
      end
    | Rejected err =>
      match message_text err with
      | Some message =>
        (begin ++ [state_call (setError (Some (file_error_prefix ++ message)))],
         Returned)
      | None => (begin, UncaughtTypeError)
      end
    end
  | None => (begin ++ clear_image type index, Returned)
  end.

Definition handleDeleteImage (type : ImageType) (index : option nat)
  : list Setter :=
  clear_image type index.

Definition handleToggleBackgroundUse (useBackground : bool)
  : list Setter :=
  [setBackgroundImage (fun prev =>
     {| bg_file := bg_file prev;
        bg_base64 := bg_base64 prev;
        bg_previewUrl := bg_previewUrl prev;
        bg_useBackground := useBackground |})].

Definition delete_failed_message : js_string :=
  utf16 "Không thể xóa ảnh. Vui lòng thử lại.".

(** [handleDeleteSavedImage(id)]; [confirmed] is the answer to
    [window.confirm]. *)
Definition handleDeleteSavedImage (st : AppState) (id_ : js_string)
  (confirmed : bool) (b : Browser) : list SetState * Browser :=
  if confirmed then
    let updatedSavedImages :=
      List.filter (fun img => negb (js_string_eqb (id img) id_))
                  (st_savedImages st) in
    let calls := [setSavedImages updatedSavedImages] in
    match localStorage_setItem updatedSavedImages b with
    | Some b => (calls, b)
    | None => (calls, alert delete_failed_message b)
    end
  else ([], b).

(** [handleFileInputChange] of [ImageUploadInput]: the argument handed
    to [onFileChange], and whether the value of the file input is
    reset. *)
Definition handleFileInputChange (files : option (list File))
  : option File * bool :=
  match files with
  | Some (f :: _) => (Some f, false)
  | _ => (None, true)
  end.

(** What the user can do to the reference images.  The check box of a
    character is always enabled; the switch of the background is
    disabled while the background has no file. *)
Inductive Event : Type :=
| FileChosen (type : ImageType) (index : option nat)
    (files : option (list File)) (read : settled js_string)
    (previewUrl : js_string)
| ImageDeleted (type : ImageType) (index : option nat)
| CharacterTicked (index : nat) (selected : bool)
| BackgroundSwitched (useBackground : bool).

Definition step (st : AppState) (e : Event) : AppState :=
  match e with
  | FileChosen type index files read previewUrl =>
    run_setters st
      (fst (handleFileChange type index
              (fst (handleFileInputChange files)) read previewUrl))
  | ImageDeleted type index => run_setters st (handleDeleteImage type index)
  | CharacterTicked index selected =>
    run st (handleToggleCharacterSelect index selected)
  | BackgroundSwitched useBackground =>
    if isSome (bg_file (st_backgroundImage st))
    then run_setters st (handleToggleBackgroundUse useBackground)
    else st
  end.

Definition steps_from (st : AppState) (events : list Event) : AppState :=
  fold_left step events st.

End Handlers.

Import Handlers.

(* ================================================================== *)
(** ** Further vocabulary                                              *)
(* ================================================================== *)

(** Some image can go into the request: a selected character with a
    payload and a file, or the background in use. *)
Definition has_reference (st : AppState) : bool :=
  existsb is_selected (st_characterImages st) || isSome (bgImage st).

Definition blank (s : js_string) : bool := forallb is_white_space s.

Definition is_inline (p : Part) : bool :=
  match p with InlineDataPart _ => true | TextPart _ => false end.

(** [data:<mime>;base64,<payload>] *)
Definition data_uri (mime payload : js_string) : js_string :=
  utf16 "data:" ++ mime ++ utf16 ";base64," ++ payload.

(** A slot has a file exactly when it has a payload. *)
Definition slot_consistent (char : CharacterImage) : bool :=
  Bool.eqb (isSome (char_file char)) (isSome (char_base64 char)).

(** The shape the reference images keep: the ids of the slots, file and
    payload together, and no background in use without a file. *)
Definition well_formed (st : AppState) : Prop :=
  List.map char_id (st_characterImages st)
  = List.map char_id (st_characterImages initial_state)
  /\ forallb slot_consistent (st_characterImages st) = true
  /\ isSome (bg_file (st_backgroundImage st))
     = isSome (bg_base64 (st_backgroundImage st))
  /\ (bg_useBackground (st_backgroundImage st) = true ->
      isSome (bg_file (st_backgroundImage st)) = true).

(** The state after [setPrompt(value)], the [onChange] of the prompt
    box. *)
Definition with_prompt (value : js_string) (st : AppState) : AppState :=
  {| st_characterImages := st_characterImages st;
     st_backgroundImage := st_backgroundImage st;
     st_prompt := value;
     st_generatedImages := st_generatedImages st;
     st_loading := st_loading st;
     st_error := st_error st;
     st_savedImages := st_savedImages st;
     st_selectedAspectRatio := st_selectedAspectRatio st |}.

(** Tab, space, no-break space, line feed. *)
Definition blank_prompt : js_string := [9%N; 32%N; 160%N; 10%N].

Definition stored (n : string) (u : string) (t : Z) : StoredImage :=
  {| id := utf16 n; url := utf16 u; timestamp := t |}.

(* ================================================================== *)
(** ** Strings                                                         *)
(* ================================================================== *)

Section StringFacts.

Lemma code_unit_eqb_eq (a b : code_unit) :
  code_unit_eqb a b = true <-> a = b.
Proof. unfold code_unit_eqb. apply N.eqb_eq. Qed.

Lemma startsWith_app (s p : js_string) :
  startsWith s p = true <-> exists r, s = p ++ r.
Proof.
  revert s. induction p as [|c p IH]; intros s; simpl.
  - split; [intros _; exists s; reflexivity | intros _; destruct s; reflexivity].
  - destruct s as [|d s].
    + split; [discriminate | intros [r Hr]; discriminate].
    + simpl. rewrite andb_true_iff, code_unit_eqb_eq, IH. split.
      * intros [-> [r ->]]. now exists r.
      * intros [r Hr]. injection Hr as -> ->. split; [reflexivity|now exists r].
Qed.

Lemma indexOf_lower (s p : js_string) : (-1 <= indexOf s p)%Z.
Proof.
  induction s as [|c s IH]; cbn [indexOf].
  - destruct (startsWith [] p); lia.
  - destruct (startsWith (c :: s) p); [lia|]. cbv zeta.
    destruct (indexOf s p =? -1)%Z eqn:E; lia.
Qed.

Lemma indexOf_includes (s p : js_string) :
  indexOf s p = (-1)%Z <-> includes s p = false.
Proof.
  induction s as [|c s IH]; cbn [indexOf includes].
  - destruct (startsWith [] p); cbn [orb]; split; congruence || lia.
  - destruct (startsWith (c :: s) p); cbn [orb]; cbv zeta.
    + split; [lia | discriminate].
    + rewrite <- IH. pose proof (indexOf_lower s p).
      destruct (indexOf s p =? -1)%Z eqn:E.
      * apply Z.eqb_eq in E. tauto.
      * apply Z.eqb_neq in E. split; [lia | tauto].
Qed.

(** The first occurrence of a code unit: everything before it is free
    of it. *)
Lemma indexOf_first (c : code_unit) (pre rest : js_string) :
  ~ In c pre ->
  indexOf (pre ++ c :: rest) [c] = Z.of_nat (List.length pre).
Proof.
  induction pre as [|d pre IH]; intros Hpre.
  - cbn [app indexOf startsWith]. unfold code_unit_eqb.
    now rewrite N.eqb_refl.
  - assert (Hd : code_unit_eqb c d = false).
    { apply not_true_iff_false. rewrite code_unit_eqb_eq.
      intros ->. apply Hpre. now left. }
    change (indexOf ((d :: pre) ++ c :: rest) [c])
      with (if code_unit_eqb c d && true then 0%Z
            else let i := indexOf (pre ++ c :: rest) [c] in
                 if (i =? -1)%Z then (-1)%Z else (i + 1)%Z).
    rewrite Hd. cbn [andb]. cbv zeta.
    rewrite IH by (intros H; apply Hpre; now right).
    destruct (Z.of_nat (List.length pre) =? -1)%Z eqn:E.
    + apply Z.eqb_eq in E. lia.
    + cbn [List.length]. lia.
Qed.

Lemma skipn_shorter {A : Type} (n : nat) (l : list A) :
  l <> [] -> skipn (S n) l <> l.
Proof.
  intros Hl H. apply (f_equal (@List.length A)) in H.
  rewrite length_skipn in H. destruct l; [congruence|]. simpl in H. lia.
Qed.

End StringFacts.

(* ================================================================== *)
(** ** stripDataPrefix                                                 *)
(* ================================================================== *)

Lemma stripDataPrefix_unfold (x : js_string) :
  stripDataPrefix x =
  if startsWith x data_prefix && includes x [comma]
  then substring x (indexOf x [comma] + 1) else x.
Proof.
  unfold stripDataPrefix. change (utf16 "data:") with data_prefix.
  change (utf16 ",") with [comma].
  destruct (startsWith x data_prefix); [|reflexivity]. cbn [andb].
  destruct (includes x [comma]) eqn:E.
  - destruct (indexOf x [comma] =? -1)%Z eqn:F; [|reflexivity].
    apply Z.eqb_eq, indexOf_includes in F. congruence.
  - apply indexOf_includes in E. now rewrite E.
Qed.

(** A string without the prefix, or without a comma, is returned as it
    is. *)
Lemma stripDataPrefix_passes (x : js_string) :
  startsWith x data_prefix && includes x [comma] = false ->
  stripDataPrefix x = x.
Proof. intros H. now rewrite stripDataPrefix_unfold, H. Qed.

(** A string with the prefix and a comma loses everything up to and
    including its first comma. *)
Lemma stripDataPrefix_cuts (x pre rest : js_string) :
  startsWith x data_prefix = true ->
  x = pre ++ comma :: rest -> ~ In comma pre ->
  stripDataPrefix x = rest.
Proof.
  intros Hp -> Hpre. rewrite stripDataPrefix_unfold, Hp. cbn [andb].
  assert (Hi : indexOf (pre ++ comma :: rest) [comma]
               = Z.of_nat (List.length pre)) by now apply indexOf_first.
  destruct (includes (pre ++ comma :: rest) [comma]) eqn:E.
  - rewrite Hi. unfold substring.
    replace (Z.to_nat (Z.of_nat (List.length pre) + 1))
      with (List.length pre + 1)%nat by lia.
    rewrite skipn_app, skipn_all2 by lia.
    replace (List.length pre + 1 - List.length pre)%nat with 1%nat by lia.
    reflexivity.
  - apply indexOf_includes in E. lia.
Qed.

Lemma stripDataPrefix_changes (y : js_string) :
  startsWith y data_prefix && includes y [comma] = true ->
  stripDataPrefix y <> y.
Proof.
  intros H. rewrite stripDataPrefix_unfold, H.
  apply andb_true_iff in H as [Hp Hc].
  pose proof (indexOf_lower y [comma]) as Hl.
  assert (Hn : indexOf y [comma] <> (-1)%Z).
  { intros E. apply indexOf_includes in E. congruence. }
  unfold substring.
  replace (Z.to_nat (indexOf y [comma] + 1))
    with (S (Z.to_nat (indexOf y [comma]))) by lia.
  apply skipn_shorter. destruct y; [discriminate Hp | discriminate].
Qed.

(** C5, as the code has it.  Stripping once more changes nothing exactly
    when the first result does not again begin with [data:] and hold a
    comma; this is so whenever what follows the first comma of [x] has
    no further comma, as with a base64 payload.  A string that does not
    carry the prefix (no leading [data:], or no comma) passes through
    unchanged. *)
Theorem stripDataPrefix_idempotent_on_payloads (x : js_string) :
  (startsWith x data_prefix && includes x [comma] = false ->
   stripDataPrefix x = x)
  /\ (stripDataPrefix (stripDataPrefix x) = stripDataPrefix x <->
      startsWith (stripDataPrefix x) data_prefix
      && includes (stripDataPrefix x) [comma] = false)
  /\ (forall pre rest,
        startsWith x data_prefix = true -> x = pre ++ comma :: rest ->
        ~ In comma pre -> includes rest [comma] = false ->
        stripDataPrefix x = rest
        /\ stripDataPrefix (stripDataPrefix x) = stripDataPrefix x).
Proof.
  split; [apply stripDataPrefix_passes|]. split.
  - split.
    + intros H.
      destruct (startsWith (stripDataPrefix x) data_prefix
                && includes (stripDataPrefix x) [comma]) eqn:E;
        [|reflexivity].
      now apply stripDataPrefix_changes in E.
    + apply stripDataPrefix_passes.
  - intros pre rest Hp Hx Hpre Hrest.
    rewrite (@stripDataPrefix_cuts x pre rest Hp Hx Hpre). split; [reflexivity|].
    apply stripDataPrefix_passes. rewrite Hrest. apply andb_false_r.
Qed.

Lemma stripDataPrefix_idempotent_on_payloads_witness :
  stripDataPrefix (utf16 "data:image/png;base64,iVBORw0KGgo=")
    = utf16 "iVBORw0KGgo="
  /\ stripDataPrefix
       (stripDataPrefix (utf16 "data:image/png;base64,iVBORw0KGgo="))
     = stripDataPrefix (utf16 "data:image/png;base64,iVBORw0KGgo=")
  /\ stripDataPrefix (utf16 "iVBORw0KGgo=") = utf16 "iVBORw0KGgo=".
Proof.
  destruct (stripDataPrefix_idempotent_on_payloads
              (utf16 "data:image/png;base64,iVBORw0KGgo="))
    as [_ [_ Hcut]].
  destruct (Hcut (utf16 "data:image/png;base64") (utf16 "iVBORw0KGgo="))
    as [H1 H2].
  - reflexivity.
  - reflexivity.
  - vm_compute. intuition discriminate.
  - reflexivity.
  - split; [exact H1|]. split; [exact H2|].
    apply (stripDataPrefix_idempotent_on_payloads (utf16 "iVBORw0KGgo=")).
    reflexivity.
Defined.

(** C5 as stated fails: a payload that itself begins with [data:] and
    holds a comma is stripped a second time. *)
Lemma stripDataPrefix_not_idempotent :
  stripDataPrefix (utf16 "data:,data:,x") = utf16 "data:,x"
  /\ stripDataPrefix (stripDataPrefix (utf16 "data:,data:,x")) = utf16 "x"
  /\ stripDataPrefix (stripDataPrefix (utf16 "data:,data:,x"))
     <> stripDataPrefix (utf16 "data:,data:,x").
Proof. vm_compute. repeat split; discriminate. Qed.

(* ================================================================== *)
(** ** The request parts                                               *)
(* ================================================================== *)

Lemma push_character_flat (l : list (option ImageRef)) (acc : list Part) :
  fold_left push_character l acc = acc ++ flat_map part_if_present l.
Proof.
  revert acc. induction l as [|c l IH]; intros acc; cbn [fold_left flat_map].
  - now rewrite app_nil_r.
  - rewrite IH. destruct c as [img|]; cbn [push_character part_if_present].
    + destruct (truthy (base64 img)); [|reflexivity].
      unfold push. now rewrite <- app_assoc.
    + reflexivity.
Qed.

Lemma request_parts_closed (params : GenerateImageParams) :
  request_parts params =
  TextPart (prompt params)
  :: (if useBackground params
      then part_if_present (backgroundImage params) else [])
  ++ flat_map part_if_present (characterImages params).
Proof.
  unfold request_parts. rewrite push_character_flat.
  destruct (backgroundImage params) as [bg|]; cbn [part_if_present].
  - destruct (useBackground params); cbn [andb]; [|reflexivity].
    destruct (truthy (base64 bg)); reflexivity.
  - destruct (useBackground params); reflexivity.
Qed.

Lemma is_selected_payload (char : CharacterImage) :
  is_selected char = true -> truthy (base64 (to_image_ref char)) = true.
Proof.
  unfold is_selected, to_image_ref. cbn [base64].
  destruct (char_base64 char) as [b|]; cbn [truthy_opt].
  - intros H. apply andb_true_iff in H as [H _].
    now apply andb_true_iff in H as [_ H].
  - rewrite andb_false_r. discriminate.
Qed.

Lemma selected_parts (chars : list CharacterImage) :
  flat_map part_if_present
    (List.map Some (List.map to_image_ref (List.filter is_selected chars)))
  = List.map (fun char => image_part (to_image_ref char))
      (List.filter is_selected chars).
Proof.
  induction chars as [|c chars IH]; [reflexivity|].
  cbn [List.filter]. destruct (is_selected c) eqn:E; [|exact IH].
  cbn [List.map flat_map part_if_present].
  rewrite (is_selected_payload c E), IH. reflexivity.
Qed.

Lemma bgImage_parts (st : AppState) :
  (if bg_useBackground (st_backgroundImage st)
   then part_if_present (bgImage st) else [])
  = match bgImage st with Some bg => [image_part bg] | None => [] end.
Proof.
  unfold bgImage.
  destruct (bg_file (st_backgroundImage st)) as [f|];
    destruct (bg_base64 (st_backgroundImage st)) as [b|];
    destruct (bg_useBackground (st_backgroundImage st));
    cbn [andb part_if_present]; try reflexivity.
  destruct (truthy b) eqn:E; cbn [part_if_present base64];
    [now rewrite E | reflexivity].
Qed.

Lemma toggle_commute (i j : nat) (a b : bool) (st : AppState) :
  i <> j -> toggle i a (toggle j b st) = toggle j b (toggle i a st).
Proof.
  intros Hij. unfold toggle, run, handleToggleCharacterSelect.
  cbn [fold_left apply_set st_characterImages st_backgroundImage st_prompt
       st_generatedImages st_loading st_error st_savedImages
       st_selectedAspectRatio].
  f_equal. unfold mapi. generalize 0%nat.
  induction (st_characterImages st) as [|c l IH]; intros k; [reflexivity|].
  cbn [mapi_from]. rewrite IH. f_equal.
  destruct (Nat.eqb k j) eqn:Ej; destruct (Nat.eqb k i) eqn:Ei;
    try reflexivity.
  apply Nat.eqb_eq in Ej, Ei. congruence.
Qed.

(** Clicks on different check boxes may be made in any order. *)
Lemma toggles_permutation (clicks clicks' : list (nat * bool))
  (st : AppState) :
  NoDup (List.map fst clicks) -> Permutation clicks clicks' ->
  toggles clicks st = toggles clicks' st.
Proof.
  intros Hnd Hperm. revert st Hnd.
  induction Hperm as [|x l l' Hperm IH|x y l|l l' l'' H1 IH1 H2 IH2];
    intros st Hnd.
  - reflexivity.
  - cbn [List.map] in Hnd. apply NoDup_cons_iff in Hnd as [_ Hnd].
    unfold toggles. cbn [fold_left]. now apply IH.
  - unfold toggles. cbn [fold_left]. f_equal.
    cbn [List.map] in Hnd. apply NoDup_cons_iff in Hnd as [Hy _].
    apply toggle_commute. intros E. apply Hy. left. now symmetry.
  - rewrite (IH1 st Hnd). apply IH2.
    apply (Permutation_NoDup (Permutation_map fst H1) Hnd).
Qed.

(** C1.  The request opens with the prompt text; the background image
    follows exactly when [useBackground] holds and its payload is
    present; then comes one inline-image part for each character image
    with a present payload, in the order of the list.  For the request
    built from the component state these are the selected slots, in
    slot order, and clicks on different check boxes give the same
    request in whatever order they are made. *)
Theorem request_parts_fixed_order :
  (forall params : GenerateImageParams,
     request_parts params =
     TextPart (prompt params)
     :: (if useBackground params
         then part_if_present (backgroundImage params) else [])
     ++ flat_map part_if_present (characterImages params))
  /\ (forall st : AppState,
        request_parts (generate_params st) =
        TextPart (finalPrompt st)
        :: match bgImage st with Some bg => [image_part bg] | None => [] end
        ++ List.map (fun char => image_part (to_image_ref char))
             (List.filter is_selected (st_characterImages st)))
  /\ (forall (st : AppState) (clicks clicks' : list (nat * bool)),
        NoDup (List.map fst clicks) -> Permutation clicks clicks' ->
        request_parts (generate_params (toggles clicks st))
        = request_parts (generate_params (toggles clicks' st))).
Proof.
  split; [exact request_parts_closed|]. split.
  - intros st. rewrite request_parts_closed.
    cbn [generate_params prompt useBackground backgroundImage
         characterImages].
    unfold selectedCharImages. now rewrite selected_parts, bgImage_parts.
  - intros st clicks clicks' Hnd Hperm.
    now rewrite (toggles_permutation clicks clicks' st Hnd Hperm).
Qed.

Lemma request_parts_fixed_order_witness :
  NoDup (List.map fst [(2, true); (0, false); (1, true)])
  /\ Permutation [(2, true); (0, false); (1, true)]
                 [(0, false); (1, true); (2, true)]
  /\ request_parts
       (generate_params
          (toggles [(2, true); (0, false); (1, true)] ready_state))
     = request_parts
         (generate_params
            (toggles [(0, false); (1, true); (2, true)] ready_state)).
Proof.
  assert (Hnd : NoDup (List.map fst [(2, true); (0, false); (1, true)])).
  { cbn [List.map fst]. repeat constructor; cbn [In]; lia. }
  assert (Hperm : Permutation [(2, true); (0, false); (1, true)]
                              [(0, false); (1, true); (2, true)]).
  { apply (Permutation_cons_app [(0, false); (1, true)] [] (2, true)).
    rewrite app_nil_r. apply Permutation_refl. }
  split; [exact Hnd|]. split; [exact Hperm|].
  destruct request_parts_fixed_order as [_ [_ H]].
  apply (H ready_state _ _ Hnd Hperm).
Defined.

(* ================================================================== *)
(** ** handleGenerateImages                                            *)
(* ================================================================== *)

Section RunFacts.

Variable live : AppState.

Lemma run_rejected (message : js_string) :
  let st' := run live [setLoading true; setError None;
                       setError (Some message); setLoading false] in
  st_loading st' = false /\ st_error st' = Some message
  /\ st_generatedImages st' = st_generatedImages live.
Proof. cbn. auto. Qed.

Lemma run_prepended (results : list js_string) :
  let st' := run live [setLoading true; setError None;
                       setGeneratedImages (fun prev => results ++ prev);
                       setLoading false] in
  st_loading st' = false /\ st_error st' = None
  /\ st_generatedImages st' = results ++ st_generatedImages live.
Proof. cbn. auto. Qed.

End RunFacts.

(** With no selected character image and no usable background the
    first guard fires. *)
Lemma validation_error_no_image (st : AppState) :
  selectedCharImages st = [] ->
  bg_useBackground (st_backgroundImage st) = false
  \/ truthy_opt (bg_base64 (st_backgroundImage st)) = false ->
  validation_error st = Some no_image_selected_message.
Proof.
  intros Hsel Hbg. unfold validation_error.
  rewrite Hsel. cbn [List.length Nat.eqb andb].
  assert (Hb : bgImage st = None
               \/ bg_useBackground (st_backgroundImage st) = false).
  { destruct Hbg as [H|H]; [now right|]. left. unfold bgImage.
    destruct (bg_file (st_backgroundImage st)); [|reflexivity].
    destruct (bg_base64 (st_backgroundImage st)) as [b|]; [|reflexivity].
    cbn [truthy_opt] in H. rewrite H. now rewrite andb_false_r. }
  destruct Hb as [-> | ->]; [reflexivity|].
  now rewrite orb_true_r.
Qed.

(** Slots that are all unticked give no selected character image; so
    does a ticked slot that holds no image. *)
Lemma unticked_slots_select_nothing (st : AppState) :
  (forall char, In char (st_characterImages st) ->
                char_selected char = false
                \/ truthy_opt (char_base64 char) = false
                \/ char_file char = None) ->
  selectedCharImages st = [].
Proof.
  intros Hnone. unfold selectedCharImages.
  induction (st_characterImages st) as [|c l IH]; [reflexivity|].
  cbn [List.filter].
  assert (Hc : is_selected c = false).
  { unfold is_selected.
    destruct (Hnone c (or_introl eq_refl)) as [H|[H|H]]; rewrite H.
    - reflexivity.
    - now rewrite andb_false_r.
    - now rewrite andb_false_r. }
  rewrite Hc. apply IH. intros char Hin. apply Hnone. now right.
Qed.

(** C4, as the code has it.  With zero character images selected (no
    slot that is ticked and holds an image: the list the handler
    filters out is empty) and the background unused or without payload,
    the action is rejected with the validation message before any
    request is sent and without touching the [window.aistudio] hook.
    The handler does call [setLoading(true)] on entry; it calls
    [setLoading(false)] before it returns, so that [loading] is false,
    and the generated images are as before, once its calls have been
    applied. *)
Theorem no_image_selected_is_rejected
  (env : Env) (st : AppState) (reply1 reply2 : api_reply)
  (first_settled : call_index) (w : World) :
  selectedCharImages st = [] ->
  bg_useBackground (st_backgroundImage st) = false
  \/ truthy_opt (bg_base64 (st_backgroundImage st)) = false ->
  handleGenerateImages env st reply1 reply2 first_settled w
  = ([setLoading true; setError None;
      setError (Some no_image_selected_message); setLoading false],
     w, Returned)
  /\ forall live calls w' c,
       handleGenerateImages env st reply1 reply2 first_settled w
       = (calls, w', c) ->
       w' = w
       /\ requests w' = requests w
       /\ st_loading (run live calls) = false
       /\ st_error (run live calls) = Some no_image_selected_message
       /\ st_generatedImages (run live calls) = st_generatedImages live.
Proof.
  intros Hsel Hbg.
  assert (E : handleGenerateImages env st reply1 reply2 first_settled w
              = ([setLoading true; setError None;
                  setError (Some no_image_selected_message);
                  setLoading false], w, Returned)).
  { unfold handleGenerateImages.
    now rewrite (validation_error_no_image st Hsel Hbg). }
  split; [exact E|]. intros live calls w' c H. rewrite E in H.
  injection H as <- <- <-. split; [reflexivity|]. split; [reflexivity|].
  apply run_rejected.
Qed.

Lemma no_image_selected_is_rejected_witness :
  char_selected (nth 2 (st_characterImages ticked_empty_state)
                       (empty_character "0")) = true
  /\ selectedCharImages ticked_empty_state = []
  /\ handleGenerateImages studio_env ticked_empty_state
       (Fulfilled (image_response "TkVX"))
       (Fulfilled (image_response "TkVX")) FirstCall fresh_world
     = ([setLoading true; setError None;
         setError (Some no_image_selected_message); setLoading false],
        fresh_world, Returned)
  /\ st_error
       (run ticked_empty_state
          (fst (fst (handleGenerateImages studio_env ticked_empty_state
                       (Fulfilled (image_response "TkVX"))
                       (Fulfilled (image_response "TkVX"))
                       FirstCall fresh_world))))
     = Some no_image_selected_message
  /\ handleGenerateImages plain_env initial_state
       (Fulfilled (image_response "TkVX"))
       (Fulfilled (image_response "TkVX")) FirstCall fresh_world
     = ([setLoading true; setError None;
         setError (Some no_image_selected_message); setLoading false],
        fresh_world, Returned).
Proof.
  assert (Hsel : selectedCharImages ticked_empty_state = [])
    by reflexivity.
  destruct (no_image_selected_is_rejected studio_env ticked_empty_state
              (Fulfilled (image_response "TkVX"))
              (Fulfilled (image_response "TkVX")) FirstCall fresh_world
              Hsel (or_introl eq_refl))
    as [E Hlive].
  split; [reflexivity|]. split; [exact Hsel|]. split; [exact E|].
  split.
  - apply (Hlive ticked_empty_state _ _ _ eq_refl).
  - apply (no_image_selected_is_rejected plain_env initial_state
             (Fulfilled (image_response "TkVX"))
             (Fulfilled (image_response "TkVX")) FirstCall fresh_world
             eq_refl (or_introl eq_refl)).
Defined.

(** C4 as stated fails: on a freshly mounted page, where no character
    image is selected and no background is used, the handler is
    rejected with the validation message, yet its first setter call is
    [setLoading(true)]: there is a step at which [loading] is set to
    true. *)
Lemma loading_is_set_before_rejection :
  let calls :=
    fst (fst (handleGenerateImages studio_env initial_state
                (Fulfilled (image_response "TkVX"))
                (Fulfilled (image_response "TkVX"))
                FirstCall fresh_world)) in
  selectedCharImages initial_state = []
  /\ bg_useBackground (st_backgroundImage initial_state) = false
  /\ calls = [setLoading true; setError None;
              setError (Some no_image_selected_message); setLoading false]
  /\ hd_error calls = Some (setLoading true)
  /\ ~ (forall call, In call calls -> call <> setLoading true).
Proof.
  cbv zeta.
  assert (E : fst (fst (handleGenerateImages studio_env initial_state
                          (Fulfilled (image_response "TkVX"))
                          (Fulfilled (image_response "TkVX"))
                          FirstCall fresh_world))
              = [setLoading true; setError None;
                 setError (Some no_image_selected_message);
                 setLoading false]) by reflexivity.
  split; [reflexivity|]. split; [reflexivity|]. split; [exact E|].
  rewrite E. split; [reflexivity|].
  intros H. apply (H (setLoading true)); [now left|reflexivity].
Qed.

(** Past the two guards, the handler is decided by the two promises. *)
Lemma handleGenerateImages_issued
  (env : Env) (st : AppState) (reply1 reply2 : api_reply)
  (first_settled : call_index) (w w' : World) (p1 p2 : settled js_string) :
  validation_error st = None ->
  generateCalls env st reply1 reply2 w = (p1, p2, w') ->
  handleGenerateImages env st reply1 reply2 first_settled w =
  match Promise_all p1 p2 first_settled with
  | Resolved results =>
    ([setLoading true; setError None;
      setGeneratedImages (fun prev => results ++ prev); setLoading false],
     w', Returned)
  | Rejected err =>
    match message_text err with
    | Some errorMessage =>
      ([setLoading true; setError None;
        setError (Some (generation_error_prefix ++ errorMessage));
        setLoading false], w', Returned)
    | None => ([setLoading true; setError None; setLoading false],
               w', UncaughtTypeError)
    end
  end.
Proof.
  intros Hv Hc. unfold handleGenerateImages. rewrite Hv, Hc.
  destruct (Promise_all p1 p2 first_settled) as [results|err];
    [reflexivity|].
  destruct (message_text err); reflexivity.
Qed.

(** [Promise.all] rejects as soon as one of the two promises does, with
    the reason of one of them. *)
Lemma Promise_all_rejects {A : Type} (p1 p2 : settled A)
  (first_settled : call_index) :
  (exists e, p1 = Rejected e) \/ (exists e, p2 = Rejected e) ->
  exists err, Promise_all p1 p2 first_settled = Rejected err
              /\ (p1 = Rejected err \/ p2 = Rejected err).
Proof.
  intros [[e ->]|[e ->]].
  - destruct p2 as [b|e2]; cbn [Promise_all].
    + exists e. auto.
    + destruct first_settled; [exists e | exists e2]; auto.
  - destruct p1 as [a|e1]; cbn [Promise_all].
    + exists e. auto.
    + destruct first_settled; [exists e1 | exists e]; auto.
Qed.

(** C2.  When one of the two calls fails, the whole action is
    reported as failed: the message [Lỗi tạo ảnh: <message>] is set
    from the failure [Promise.all] reports, nothing is added to the
    generated images, whatever the other call returned, and [loading]
    is reset.  The failure values are taken to be values of which the
    [message] can be read, as every failure raised under the service
    is: neither [undefined] nor [null]. *)
Theorem failed_call_discards_both_results
  (env : Env) (st : AppState) (reply1 reply2 : api_reply)
  (first_settled : call_index) (w w' : World) (p1 p2 : settled js_string) :
  validation_error st = None ->
  generateCalls env st reply1 reply2 w = (p1, p2, w') ->
  (exists e, p1 = Rejected e) \/ (exists e, p2 = Rejected e) ->
  (forall e, p1 = Rejected e \/ p2 = Rejected e -> readable e) ->
  exists err errorMessage calls,
    (p1 = Rejected err \/ p2 = Rejected err)
    /\ message_text err = Some errorMessage
    /\ handleGenerateImages env st reply1 reply2 first_settled w
       = (calls, w', Returned)
    /\ forall live,
         st_error (run live calls)
         = Some (generation_error_prefix ++ errorMessage)
         /\ st_generatedImages (run live calls) = st_generatedImages live
         /\ st_loading (run live calls) = false.
Proof.
  intros Hv Hc Hfail Hread.
  destruct (Promise_all_rejects p1 p2 first_settled Hfail)
    as [err [Hall Hsrc]].
  rewrite (handleGenerateImages_issued env st reply1 reply2 first_settled
             w w' p1 p2 Hv Hc), Hall.
  exists err. specialize (Hread err Hsrc). unfold readable in Hread.
  destruct (message_text err) as [m|]; [|now elim Hread].
  exists m. eexists. split; [exact Hsrc|]. split; [reflexivity|].
  split; [reflexivity|]. intros live. repeat split.
Qed.

Lemma failed_call_discards_both_results_witness :
  exists calls,
    handleGenerateImages plain_env ready_state
      (Fulfilled (image_response "TkVX"))
      (RejectedWith (JsError (utf16 "503 UNAVAILABLE")))
      FirstCall fresh_world
    = (calls, snd (generateCalls plain_env ready_state
                     (Fulfilled (image_response "TkVX"))
                     (RejectedWith (JsError (utf16 "503 UNAVAILABLE")))
                     fresh_world), Returned)
    /\ st_generatedImages (run ready_state calls)
       = st_generatedImages ready_state
    /\ st_error (run ready_state calls)
       = Some (generation_error_prefix ++ utf16 "503 UNAVAILABLE").
Proof.
  destruct (@failed_call_discards_both_results plain_env ready_state
              (Fulfilled (image_response "TkVX"))
              (RejectedWith (JsError (utf16 "503 UNAVAILABLE")))
              FirstCall fresh_world
              (snd (generateCalls plain_env ready_state
                     (Fulfilled (image_response "TkVX"))
                     (RejectedWith (JsError (utf16 "503 UNAVAILABLE")))
                     fresh_world))
              (Resolved (utf16 "data:image/png;base64,TkVX"))
              (Rejected (JsError (utf16 "503 UNAVAILABLE"))))
    as [err [m [calls [Hsrc [Hm [Hh Hlive]]]]]].
  - vm_compute. reflexivity.
  - vm_compute. reflexivity.
  - right. eexists. reflexivity.
  - intros e [H|H]; [discriminate H|]. injection H as <-. discriminate.
  - exists calls. split; [exact Hh|].
    destruct (Hlive ready_state) as [He [Hg _]]. split; [exact Hg|].
    rewrite He. destruct Hsrc as [Hsrc|Hsrc]; [discriminate Hsrc|].
    injection Hsrc as <-. cbn [message_text] in Hm.
    injection Hm as <-. reflexivity.
Defined.

(** The failures a call of the service reports are readable whenever
    the two values that come from outside are: the rejection of the
    external call and the exception of the key dialog.  Every failure
    the service raises itself is an [Error]. *)
Lemma service_failures_are_readable
  (env : Env) (params : GenerateImageParams) (reply : api_reply)
  (w : World) (e : js_value) :
  (forall v, reply = RejectedWith v -> readable v) ->
  (forall v, hook_raises env = Some v -> readable v) ->
  fst (generateImageWithGemini env params reply w) = Rejected e ->
  readable e.
Proof.
  intros Hreply Hhook. unfold generateImageWithGemini.
  destruct (negb (truthy_opt (API_KEY env))).
  - cbn [fst]. intros H. injection H as <-. discriminate.
  - assert (Hcatch : forall error w0,
              readable error -> readable (fst (catch_block env error w0))).
    { intros error w0 He. unfold catch_block, reselect_and_throw.
      destruct (error_includes error RESOURCE_EXHAUSTED);
        [|destruct (error_includes error NOT_FOUND)];
        try exact He;
        (destruct (hook_available env); [|discriminate]);
        (destruct (hook_raises env) as [v|] eqn:Hv;
           [exact (Hhook v eq_refl)|discriminate]). }
    destruct (try_block reply) as [uri|error] eqn:Ht; [discriminate|].
    assert (He : readable error).
    { destruct reply as [response|v]; cbn [try_block] in Ht.
      - destruct (generatedImagePart response); [discriminate Ht|].
        injection Ht as <-. discriminate.
      - injection Ht as <-. now apply Hreply. }
    specialize (Hcatch error
                  (send (generateContent_request (request_parts params)) w)
                  He).
    destruct (catch_block env error
                (send (generateContent_request (request_parts params)) w))
      as [thrown w1].
    cbn [fst] in *. intros H. injection H as <-. exact Hcatch.
Qed.

(** Outside that domain: were the external call ever to reject with
    [undefined], reading its [message] would raise inside the [catch]
    block of the handler, which would then leave through [finally]
    with no message set; the generated images stay as they are here
    too. *)
Lemma failure_without_message_sets_no_error :
  let '(calls, w', c) :=
    handleGenerateImages plain_env ready_state
      (RejectedWith JsUndefined) (Fulfilled (image_response "TkVX"))
      FirstCall fresh_world in
  validation_error ready_state = None
  /\ fst (generateImageWithGemini plain_env (generate_params ready_state)
            (RejectedWith JsUndefined) fresh_world) = Rejected JsUndefined
  /\ calls = [setLoading true; setError None; setLoading false]
  /\ c = UncaughtTypeError
  /\ st_error (run ready_state calls) = None
  /\ st_generatedImages (run ready_state calls)
     = st_generatedImages ready_state.
Proof. vm_compute. repeat split. Qed.

(** C3.  When both calls succeed, the two data URIs are put in front of
    the generated images, in the order of the calls, and every earlier
    result stays behind them. *)
Theorem both_results_are_prepended
  (env : Env) (st : AppState) (reply1 reply2 : api_reply)
  (first_settled : call_index) (w w' : World) (r1 r2 : js_string) :
  validation_error st = None ->
  generateCalls env st reply1 reply2 w = (Resolved r1, Resolved r2, w') ->
  exists calls,
    handleGenerateImages env st reply1 reply2 first_settled w
    = (calls, w', Returned)
    /\ forall live,
         st_generatedImages (run live calls)
         = r1 :: r2 :: st_generatedImages live
         /\ In r1 (st_generatedImages (run live calls))
         /\ In r2 (st_generatedImages (run live calls))
         /\ (forall old, In old (st_generatedImages live) ->
                         In old (st_generatedImages (run live calls)))
         /\ st_error (run live calls) = None
         /\ st_loading (run live calls) = false.
Proof.
  intros Hv Hc.
  rewrite (handleGenerateImages_issued env st reply1 reply2 first_settled
             w w' (Resolved r1) (Resolved r2) Hv Hc).
  cbn [Promise_all]. eexists. split; [reflexivity|].
  intros live.
  destruct (run_prepended live [r1; r2]) as [Hl [He Hg]].
  cbv zeta in Hl, He, Hg. rewrite Hg, He, Hl. cbn [app].
  repeat split.
  - now left.
  - right. now left.
  - intros old Hold. right. now right.
Qed.

Lemma both_results_are_prepended_witness :
  exists calls,
    handleGenerateImages studio_env ready_state
      (Fulfilled (image_response "QQ=="))
      (Fulfilled (image_response "TkVX")) SecondCall fresh_world
    = (calls,
       snd (generateCalls studio_env ready_state
              (Fulfilled (image_response "QQ=="))
              (Fulfilled (image_response "TkVX")) fresh_world),
       Returned)
    /\ st_generatedImages (run ready_state calls)
       = [utf16 "data:image/png;base64,QQ==";
          utf16 "data:image/png;base64,TkVX";
          utf16 "data:image/png;base64,T0xE"].
Proof.
  destruct (@both_results_are_prepended studio_env ready_state
              (Fulfilled (image_response "QQ=="))
              (Fulfilled (image_response "TkVX")) SecondCall fresh_world
              (snd (generateCalls studio_env ready_state
                      (Fulfilled (image_response "QQ=="))
                      (Fulfilled (image_response "TkVX")) fresh_world))
              (utf16 "data:image/png;base64,QQ==")
              (utf16 "data:image/png;base64,TkVX"))
    as [calls [Hh Hlive]].
  - vm_compute. reflexivity.
  - vm_compute. reflexivity.
  - exists calls. split; [exact Hh|].
    destruct (Hlive ready_state) as [Hg _]. rewrite Hg. reflexivity.
Defined.

(* ================================================================== *)
(** ** generateImageWithGemini: the response and the error classes     *)
(* ================================================================== *)

Lemma no_image_is_unclassified :
  error_includes (JsError no_image_message) RESOURCE_EXHAUSTED = false
  /\ error_includes (JsError no_image_message) NOT_FOUND = false.
Proof. split; vm_compute; reflexivity. Qed.

Lemma generateImageWithGemini_with_key
  (env : Env) (params : GenerateImageParams) (reply : api_reply)
  (w : World) :
  truthy_opt (API_KEY env) = true ->
  generateImageWithGemini env params reply w =
  match try_block reply with
  | Resolved uri =>
    (Resolved uri, send (generateContent_request (request_parts params)) w)
  | Rejected error =>
    let (thrown, w') :=
      catch_block env error
        (send (generateContent_request (request_parts params)) w) in
    (Rejected thrown, w')
  end.
Proof.
  intros Hkey. unfold generateImageWithGemini. now rewrite Hkey.
Qed.

Lemma generatedImagePart_shape (response : GenerateContentResponse)
  (g : InlineData) :
  generatedImagePart response = Some g <->
  exists candidate others c part rest,
    candidates response = Some (candidate :: others)
    /\ content candidate = Some c
    /\ parts c = Some (part :: rest)
    /\ part_inlineData part = Some g.
Proof.
  unfold generatedImagePart. split.
  - destruct (candidates response) as [[|candidate others]|];
      cbn [first bind]; try discriminate.
    destruct (content candidate) as [c|] eqn:Ec; cbn [bind];
      try discriminate.
    destruct (parts c) as [[|part rest]|] eqn:Ep; cbn [first bind];
      try discriminate.
    intros H. exists candidate, others, c, part, rest. auto.
  - intros (candidate & others & c & part & rest & -> & Hc & Hp & Hg).
    cbn [first bind]. rewrite Hc. cbn [bind]. rewrite Hp. exact Hg.
Qed.

(** C6.  Once the model has answered, the call returns
    [data:<mime>;base64,<payload>] built from the inline image of the
    first part of the first candidate when there is one, and fails with
    the no-image error exactly when there is none.  In both cases the
    request has been sent and the [window.aistudio] hook is left
    alone. *)
Theorem first_inline_image_decides_result
  (env : Env) (params : GenerateImageParams)
  (response : GenerateContentResponse) (w : World) :
  truthy_opt (API_KEY env) = true ->
  (forall g,
     generatedImagePart response = Some g ->
     generateImageWithGemini env params (Fulfilled response) w
     = (Resolved (utf16 "data:" ++ inline_mimeType g
                  ++ utf16 ";base64," ++ data g),
        send (generateContent_request (request_parts params)) w))
  /\ (generatedImagePart response = None ->
      generateImageWithGemini env params (Fulfilled response) w
      = (Rejected (JsError no_image_message),
         send (generateContent_request (request_parts params)) w))
  /\ (fst (generateImageWithGemini env params (Fulfilled response) w)
      = Rejected (JsError no_image_message)
      <-> generatedImagePart response = None)
  /\ (forall g,
        generatedImagePart response = Some g <->
        exists candidate others c part rest,
          candidates response = Some (candidate :: others)
          /\ content candidate = Some c
          /\ parts c = Some (part :: rest)
          /\ part_inlineData part = Some g).
Proof.
  intros Hkey.
  rewrite (generateImageWithGemini_with_key env params _ w Hkey).
  cbn [try_block]. destruct (generatedImagePart response) as [g|] eqn:Eg.
  - split; [intros g' Hg'; injection Hg' as <-; reflexivity|].
    split; [discriminate|]. split.
    + cbn [fst]. split; discriminate.
    + intros g'. rewrite <- Eg. apply generatedImagePart_shape.
  - assert (Hcatch : forall w0, catch_block env (JsError no_image_message) w0
                                = (JsError no_image_message, w0)).
    { intros w0. unfold catch_block.
      destruct no_image_is_unclassified as [-> ->]. reflexivity. }
    rewrite Hcatch. split; [discriminate|]. split; [reflexivity|]. split.
    + cbn [fst]. split; reflexivity.
    + intros g'. rewrite <- Eg. apply generatedImagePart_shape.
Qed.

Lemma first_inline_image_decides_result_witness :
  generateImageWithGemini plain_env (generate_params ready_state)
    (Fulfilled (image_response "TkVX")) fresh_world
  = (Resolved (utf16 "data:image/png;base64,TkVX"),
     send (generateContent_request
             (request_parts (generate_params ready_state))) fresh_world)
  /\ generateImageWithGemini plain_env (generate_params ready_state)
       (Fulfilled text_response) fresh_world
     = (Rejected (JsError no_image_message),
        send (generateContent_request
                (request_parts (generate_params ready_state))) fresh_world).
Proof.
  split.
  - destruct (first_inline_image_decides_result plain_env
                (generate_params ready_state) (image_response "TkVX")
                fresh_world) as [H _]; [reflexivity|].
    apply (H {| inline_mimeType := utf16 "image/png";
                data := utf16 "TkVX" |}). reflexivity.
  - destruct (first_inline_image_decides_result plain_env
                (generate_params ready_state) text_response
                fresh_world) as [_ [H _]]; [reflexivity|].
    apply H. reflexivity.
Defined.

(** The quota branch of the [catch] block. *)
Lemma catch_block_quota (env : Env) (message : js_string) (w : World) :
  includes message RESOURCE_EXHAUSTED = true ->
  catch_block env (JsError message) w
  = reselect_and_throw env quota_message_reselect quota_message w.
Proof.
  intros H. unfold catch_block. cbn [error_includes]. now rewrite H.
Qed.

Section Reselect.

Variable env : Env.
Variables with_hook without_hook : js_string.

(** The world after the shared body: one call of the hook where there
    is one, whether or not the call raises. *)
Lemma reselect_and_throw_world (w : World) :
  snd (reselect_and_throw env with_hook without_hook w)
  = if hook_available env then openSelectKey w else w.
Proof.
  unfold reselect_and_throw. destruct (hook_available env); [|reflexivity].
  destruct (hook_raises env); reflexivity.
Qed.

(** The value thrown does not depend on the world. *)
Lemma reselect_and_throw_thrown (w w0 : World) :
  fst (reselect_and_throw env with_hook without_hook w)
  = fst (reselect_and_throw env with_hook without_hook w0).
Proof.
  unfold reselect_and_throw. destruct (hook_available env); [|reflexivity].
  destruct (hook_raises env); reflexivity.
Qed.


End Reselect.



(** What a call answers to a rejection classified as a quota failure. *)
Lemma generateImageWithGemini_quota
  (env : Env) (params : GenerateImageParams) (message : js_string)
  (w : World) :
  truthy_opt (API_KEY env) = true ->
  includes message RESOURCE_EXHAUSTED = true ->
  generateImageWithGemini env params (RejectedWith (JsError message)) w
  = (Rejected
       (fst (reselect_and_throw env quota_message_reselect quota_message w)),
     if hook_available env
     then openSelectKey
            (send (generateContent_request (request_parts params)) w)
     else send (generateContent_request (request_parts params)) w).
Proof.
  intros Hkey Hmsg.
  rewrite (generateImageWithGemini_with_key env params _ w Hkey).
  cbn [try_block]. rewrite (catch_block_quota env message _ Hmsg).
  rewrite (surjective_pairing
             (reselect_and_throw env quota_message_reselect quota_message
                (send (generateContent_request (request_parts params)) w))).
  rewrite reselect_and_throw_world.
  now rewrite (reselect_and_throw_thrown env quota_message_reselect
                 quota_message _ w).
Qed.



(** A key dialog that fails to open: the hook has been called once, and
    its exception is what leaves the [catch] block. *)
Lemma raising_hook_is_called_once :
  generateImageWithGemini broken_studio_env (generate_params ready_state)
    (RejectedWith (JsError (utf16 "429 RESOURCE_EXHAUSTED: quota")))
    fresh_world
  = (Rejected (JsError (utf16 "dialog unavailable")),
     openSelectKey
       (send (generateContent_request
                (request_parts (generate_params ready_state)))
             fresh_world)).
Proof.
  rewrite (generateImageWithGemini_quota broken_studio_env
             (generate_params ready_state)
             (utf16 "429 RESOURCE_EXHAUSTED: quota") fresh_world eq_refl);
    [reflexivity|vm_compute; reflexivity].
Qed.



(** C8.  A failure that is not an [Error], or whose message contains
    neither [RESOURCE_EXHAUSTED] nor [Requested entity was not found.],
    leaves the [catch] block as the very value that entered it, and
    [window.aistudio.openSelectKey] is not called. *)
Theorem other_failures_are_rethrown
  (env : Env) (params : GenerateImageParams) (error : js_value)
  (w : World) :
  (forall message,
     error = JsError message ->
     includes message RESOURCE_EXHAUSTED = false
     /\ includes message NOT_FOUND = false) ->
  catch_block env error w = (error, w)
  /\ (truthy_opt (API_KEY env) = true ->
      generateImageWithGemini env params (RejectedWith error) w
      = (Rejected error,
         send (generateContent_request (request_parts params)) w)
      /\ openSelectKey_calls
           (snd (generateImageWithGemini env params (RejectedWith error) w))
         = openSelectKey_calls w).
Proof.
  intros Hother.
  assert (Hcatch : forall w0, catch_block env error w0 = (error, w0)).
  { intros w0. unfold catch_block. destruct error as [| |s|m|message];
      cbn [error_includes]; try reflexivity.
    destruct (Hother message eq_refl) as [-> ->]. reflexivity. }
  split; [apply Hcatch|]. intros Hkey.
  rewrite (generateImageWithGemini_with_key env params _ w Hkey).
  cbn [try_block]. rewrite Hcatch. split; reflexivity.
Qed.

Lemma other_failures_are_rethrown_witness :
  generateImageWithGemini studio_env (generate_params ready_state)
    (RejectedWith (JsError (utf16 "fetch failed"))) fresh_world
  = (Rejected (JsError (utf16 "fetch failed")),
     send (generateContent_request
             (request_parts (generate_params ready_state))) fresh_world)
  /\ catch_block studio_env (JsString RESOURCE_EXHAUSTED) fresh_world
     = (JsString RESOURCE_EXHAUSTED, fresh_world).
Proof.
  split.
  - apply (other_failures_are_rethrown studio_env
             (generate_params ready_state)
             (JsError (utf16 "fetch failed")) fresh_world);
      [|reflexivity].
    intros message H. injection H as <-. split; vm_compute; reflexivity.
  - apply (other_failures_are_rethrown studio_env
             (generate_params ready_state)
             (JsString RESOURCE_EXHAUSTED) fresh_world).
    intros message H. discriminate H.
Defined.

(* ================================================================== *)
(** ** handleSaveImage                                                 *)
(* ================================================================== *)

Section Identifiers.

Lemma digits_of_uint_inj (d d' : Decimal.uint) :
  digits_of_uint d = digits_of_uint d' -> d = d'.
Proof.
  revert d'. induction d as [|d IH|d IH|d IH|d IH|d IH|d IH|d IH|d IH|d IH|d IH];
    intros [|e|e|e|e|e|e|e|e|e|e] H; cbn [digits_of_uint] in H;
    try discriminate H; try reflexivity;
    injection H as H; f_equal; now apply IH.
Qed.

Lemma digits_without_minus (d : Decimal.uint) :
  ~ In minus_sign (digits_of_uint d).
Proof.
  unfold minus_sign.
  induction d; cbn [digits_of_uint In]; [tauto|..]; intros [H|H];
    (discriminate H || auto).
Qed.

Lemma string_of_index_inj (i j : nat) :
  string_of_index i = string_of_index j -> i = j.
Proof.
  unfold string_of_index. intros H.
  apply digits_of_uint_inj in H.
  now apply DecimalNat.Unsigned.to_uint_inj.
Qed.

Lemma string_of_integer_inj (a b : Z) :
  string_of_integer a = string_of_integer b -> a = b.
Proof.
  unfold string_of_integer. intros H.
  rewrite <- (DecimalZ.of_to a), <- (DecimalZ.of_to b).
  destruct (Z.to_int a) as [d|d]; destruct (Z.to_int b) as [e|e].
  - now rewrite (digits_of_uint_inj d e H).
  - exfalso. apply (digits_without_minus d). rewrite H. now left.
  - exfalso. apply (digits_without_minus e). rewrite <- H. now left.
  - injection H as H. now rewrite (digits_of_uint_inj d e H).
Qed.

(** Two texts cut at their last minus sign. *)
Lemma split_at_last_minus (a b d e : js_string) :
  ~ In minus_sign d -> ~ In minus_sign e ->
  a ++ minus_sign :: d = b ++ minus_sign :: e -> a = b /\ d = e.
Proof.
  intros Hd He. revert b. induction a as [|x a IH]; intros [|y b] H;
    cbn [app] in H.
  - injection H as H. auto.
  - injection H as Hx H. exfalso. apply Hd. rewrite H.
    apply in_or_app. right. now left.
  - injection H as Hx H. exfalso. apply He. rewrite <- H.
    apply in_or_app. right. now left.
  - injection H as -> H. destruct (IH b H) as [-> ->]. auto.
Qed.

Lemma newImage_id_inj (u v : js_string) (i j : nat) (t t' s s' : Z) :
  id (newImage u i t t') = id (newImage v j s s') <-> t = s /\ i = j.
Proof.
  cbn [id newImage]. change (utf16 "-") with [minus_sign]. split.
  - intros H. cbn [app] in H.
    apply split_at_last_minus in H; try apply digits_without_minus.
    destruct H as [Ht Hi]. split.
    + now apply string_of_integer_inj.
    + now apply string_of_index_inj.
  - intros [-> ->]. reflexivity.
Qed.

End Identifiers.

Lemma js_string_eqb_refl (s : js_string) : js_string_eqb s s = true.
Proof.
  induction s as [|c s IH]; [reflexivity|]. cbn [js_string_eqb].
  unfold code_unit_eqb. now rewrite N.eqb_refl, IH.
Qed.

Lemma handleSaveImage_calls (st : AppState) (imageUrl : js_string)
  (index : nat) (now_id now_timestamp : Z) (b : Browser) :
  fst (handleSaveImage st imageUrl index now_id now_timestamp b)
  = [setSavedImages
       (st_savedImages st
        ++ [newImage imageUrl index now_id now_timestamp])].
Proof.
  unfold handleSaveImage. destruct (localStorage_setItem _ b); reflexivity.
Qed.

(** C9, as the code has it.  A save puts one record, holding the URL,
    the id [<Date.now()>-<index>] and the timestamp, at the end of the
    saved images of the component, the earlier records unchanged.  The
    persisted collection is rewritten to that list when the browser
    accepts the write; when it refuses, the persisted collection stays
    as it was and the failure is announced.  Saving the same URL again
    adds a second record (nothing is dropped for having the same URL),
    and the two ids differ exactly when the clock reading or the index
    differ. *)
Theorem save_appends_one_record
  (st : AppState) (imageUrl : js_string) (index : nat)
  (now_id now_timestamp : Z) (b : Browser) :
  let record := newImage imageUrl index now_id now_timestamp in
  let saved := st_savedImages st ++ [record] in
  let calls := fst (handleSaveImage st imageUrl index now_id now_timestamp b) in
  let b' := snd (handleSaveImage st imageUrl index now_id now_timestamp b) in
  url record = imageUrl /\ timestamp record = now_timestamp
  /\ id record = string_of_integer now_id ++ utf16 "-"
                 ++ string_of_index index
  /\ (forall live, st_savedImages (run live calls) = saved)
  /\ (storage_accepts b saved = true ->
      local_storage b' = Some saved
      /\ alerts b' = alerts b ++ [save_ok_message])
  /\ (storage_accepts b saved = false ->
      local_storage b' = local_storage b
      /\ alerts b' = alerts b ++ [save_failed_message])
  /\ (forall (index2 : nat) (now_id2 now_timestamp2 : Z) (b2 : Browser),
        let record2 := newImage imageUrl index2 now_id2 now_timestamp2 in
        url record2 = url record /\
        let calls2 :=
          fst (handleSaveImage (run st calls) imageUrl index2 now_id2
                 now_timestamp2 b2) in
        st_savedImages (run (run st calls) calls2)
        = st_savedImages st ++ [record; record2]
        /\ (id record = id record2 <-> now_id = now_id2 /\ index = index2)).
Proof.
  cbv zeta. rewrite handleSaveImage_calls.
  split; [reflexivity|]. split; [reflexivity|]. split; [reflexivity|].
  split; [reflexivity|]. split; [|split].
  - intros Hok. unfold handleSaveImage, localStorage_setItem.
    rewrite Hok. split; reflexivity.
  - intros Hno. unfold handleSaveImage, localStorage_setItem.
    rewrite Hno. split; reflexivity.
  - intros index2 now_id2 now_timestamp2 b2.
    rewrite handleSaveImage_calls. split; [reflexivity|]. split.
    + cbn [run fold_left apply_set st_savedImages].
      now rewrite <- app_assoc.
    + apply newImage_id_inj.
Qed.

Lemma save_appends_one_record_witness :
  local_storage
    (snd (handleSaveImage initial_state
            (utf16 "data:image/png;base64,TkVX") 0 1700000000000 1700000000001
            (browser_with_room 3 [])))
  = Some [newImage (utf16 "data:image/png;base64,TkVX") 0
            1700000000000 1700000000001]
  /\ local_storage
       (snd (handleSaveImage initial_state
               (utf16 "data:image/png;base64,TkVX") 0 1700000000000
               1700000000001 (browser_with_room 0 [])))
     = Some [].
Proof.
  split.
  - apply (save_appends_one_record initial_state
             (utf16 "data:image/png;base64,TkVX") 0 1700000000000
             1700000000001 (browser_with_room 3 [])).
    reflexivity.
  - apply (save_appends_one_record initial_state
             (utf16 "data:image/png;base64,TkVX") 0 1700000000000
             1700000000001 (browser_with_room 0 [])).
    reflexivity.
Defined.

(** C9 as stated fails: when the browser refuses the write (its storage
    is full), the component shows the new record but the persisted
    collection has not received it. *)
Lemma refused_write_is_not_persisted :
  let st := run initial_state
              [setSavedImages [newImage (utf16 "data:image/png;base64,T0xE")
                                 0 1700000000000 1700000000000]] in
  let b := browser_with_room 1 (st_savedImages st) in
  let record := newImage (utf16 "data:image/png;base64,TkVX") 1
                  1700000000500 1700000000500 in
  let '(calls, b') :=
    handleSaveImage st (utf16 "data:image/png;base64,TkVX") 1
      1700000000500 1700000000500 b in
  local_storage b = Some (st_savedImages st)
  /\ st_savedImages (run st calls) = st_savedImages st ++ [record]
  /\ local_storage b' = Some (st_savedImages st)
  /\ local_storage b' <> Some (st_savedImages st ++ [record])
  /\ alerts b' = [save_failed_message].
Proof. vm_compute. repeat split. discriminate. Qed.

(** X20.  After a save the URL counts as saved, which disables the
    save button of every generated image with that URL, whether or not
    the browser accepted the write. *)
Lemma saved_url_is_marked (st : AppState) (imageUrl : js_string)
  (index : nat) (now_id now_timestamp : Z) (b : Browser) :
  isSaved
    (run st (fst (handleSaveImage st imageUrl index now_id now_timestamp b)))
    imageUrl = true.
Proof.
  rewrite handleSaveImage_calls. unfold isSaved.
  cbn [run fold_left apply_set st_savedImages].
  rewrite existsb_app. cbn [existsb newImage url].
  rewrite js_string_eqb_refl. now rewrite orb_true_r.
Qed.

(* ================================================================== *)
(** ** The guards of handleGenerateImages                              *)
(* ================================================================== *)

Section Trimming.

Lemma trimStart_blank (s : js_string) :
  trimStart s = [] <-> blank s = true.
Proof.
  unfold blank. induction s as [|c s IH]; cbn [trimStart forallb].
  - tauto.
  - destruct (is_white_space c); cbn [andb]; [exact IH|].
    split; discriminate.
Qed.

Lemma trimStart_head (s : js_string) (c : code_unit) (t : js_string) :
  trimStart s = c :: t -> is_white_space c = false.
Proof.
  induction s as [|d s IH]; cbn [trimStart]; [discriminate|].
  destruct (is_white_space d) eqn:E; [exact IH|].
  intros H. injection H as <- _. exact E.
Qed.

Lemma blank_rev (s : js_string) : blank (rev s) = blank s.
Proof.
  unfold blank. induction s as [|c s IH]; [reflexivity|].
  cbn [rev forallb]. rewrite forallb_app, IH. cbn [forallb].
  rewrite andb_true_r. apply andb_comm.
Qed.

(** [!prompt.trim()] holds exactly for a prompt of white space only. *)
Lemma trim_blank (s : js_string) : truthy (trim s) = negb (blank s).
Proof.
  unfold trim, trimEnd.
  destruct (trimStart s) as [|c t] eqn:E.
  - apply trimStart_blank in E. rewrite E. reflexivity.
  - assert (Hc : is_white_space c = false) by exact (trimStart_head s c t E).
    assert (Hs : blank s = false).
    { apply not_true_iff_false. intros H. apply trimStart_blank in H.
      congruence. }
    rewrite Hs. cbn [negb].
    destruct (trimStart (rev (c :: t))) as [|d u] eqn:F.
    + apply trimStart_blank in F. rewrite blank_rev in F.
      unfold blank in F. cbn [forallb] in F. rewrite Hc in F.
      discriminate F.
    + cbn [rev]. destruct (rev u); reflexivity.
Qed.

End Trimming.

Lemma bgImage_in_use (st : AppState) :
  isSome (bgImage st) = true ->
  bg_useBackground (st_backgroundImage st) = true.
Proof.
  unfold bgImage.
  destruct (bg_file (st_backgroundImage st)); [|discriminate].
  destruct (bg_base64 (st_backgroundImage st)) as [b|]; [|discriminate].
  destruct (bg_useBackground (st_backgroundImage st)); [reflexivity|].
  discriminate.
Qed.

Lemma no_selection (chars : list CharacterImage) :
  Nat.eqb (List.length (List.map to_image_ref (List.filter is_selected chars)))
          0
  = negb (existsb is_selected chars).
Proof.
  induction chars as [|c l IH]; [reflexivity|].
  cbn [List.filter existsb]. destruct (is_selected c); [reflexivity|].
  exact IH.
Qed.

(** The two guards in terms of the state: a reference image must be
    there, and the prompt must hold something besides white space. *)
Lemma validation_error_cases (st : AppState) :
  validation_error st =
  if negb (has_reference st) then Some no_image_selected_message
  else if blank (st_prompt st) then Some empty_prompt_message
  else None.
Proof.
  unfold validation_error, has_reference, selectedCharImages.
  rewrite no_selection, trim_blank, negb_involutive.
  destruct (existsb is_selected (st_characterImages st)); cbn [negb andb orb].
  - reflexivity.
  - destruct (isSome (bgImage st)) eqn:E; cbn [negb orb].
    + now rewrite (bgImage_in_use st E).
    + reflexivity.
Qed.

(** X6.  A prompt made of white space only (spaces, tabs, line breaks,
    no-break spaces and the like, or nothing at all) is rejected with a
    validation message before any request is sent; with a reference
    image present the message is the one asking for a description.  The
    action goes on to the generation calls exactly when a reference
    image is present and the prompt holds a character that is not white
    space. *)
Theorem blank_prompt_is_rejected
  (env : Env) (st : AppState) (reply1 reply2 : api_reply)
  (first_settled : call_index) (w : World) :
  (blank (st_prompt st) = true ->
   exists message,
     handleGenerateImages env st reply1 reply2 first_settled w
     = ([setLoading true; setError None; setError (Some message);
         setLoading false], w, Returned)
     /\ message = (if has_reference st then empty_prompt_message
                   else no_image_selected_message))
  /\ (validation_error st = None <->
      has_reference st = true /\ blank (st_prompt st) = false).
Proof.
  split.
  - intros Hb. unfold handleGenerateImages.
    rewrite validation_error_cases, Hb.
    destruct (has_reference st); cbn [negb]; eexists; split; reflexivity.
  - rewrite validation_error_cases.
    destruct (has_reference st); cbn [negb];
      destruct (blank (st_prompt st)); split;
      try discriminate; try tauto; intros [? ?]; discriminate.
Qed.

Lemma blank_prompt_is_rejected_witness :
  blank blank_prompt = true
  /\ handleGenerateImages studio_env (with_prompt blank_prompt ready_state)
       (Fulfilled (image_response "TkVX"))
       (Fulfilled (image_response "TkVX")) FirstCall fresh_world
     = ([setLoading true; setError None;
         setError (Some empty_prompt_message); setLoading false],
        fresh_world, Returned).
Proof.
  split; [reflexivity|].
  destruct (blank_prompt_is_rejected studio_env
              (with_prompt blank_prompt ready_state)
              (Fulfilled (image_response "TkVX"))
              (Fulfilled (image_response "TkVX")) FirstCall fresh_world)
    as [H _].
  destruct (H eq_refl) as [message [Hm Hmsg]].
  assert (Hr : has_reference (with_prompt blank_prompt ready_state) = true)
    by (vm_compute; reflexivity).
  rewrite Hr in Hmsg. rewrite Hm, Hmsg. reflexivity.
Defined.

(* ================================================================== *)
(** ** generateImageWithGemini: key, requests and the hook             *)
(* ================================================================== *)

Section ServiceWorld.

Variable env : Env.

Lemma catch_block_world (error : js_value) (w : World) :
  requests (snd (catch_block env error w)) = requests w
  /\ (openSelectKey_calls w
      <= openSelectKey_calls (snd (catch_block env error w))
      <= S (openSelectKey_calls w))%nat
  /\ (hook_available env = false ->
      openSelectKey_calls (snd (catch_block env error w))
      = openSelectKey_calls w).
Proof.
  unfold catch_block.
  destruct (error_includes error RESOURCE_EXHAUSTED);
    [|destruct (error_includes error NOT_FOUND)];
    rewrite ?reselect_and_throw_world;
    destruct (hook_available env);
    cbn [snd openSelectKey requests openSelectKey_calls];
    repeat split; try lia; try discriminate.
Qed.

Lemma generateImageWithGemini_without_key
  (params : GenerateImageParams) (reply : api_reply) (w : World) :
  truthy_opt (API_KEY env) = false ->
  generateImageWithGemini env params reply w
  = (Rejected (JsError no_api_key_message), w).
Proof.
  intros Hkey. unfold generateImageWithGemini. now rewrite Hkey.
Qed.

Lemma generateImageWithGemini_world
  (params : GenerateImageParams) (reply : api_reply) (w : World) :
  let w' := snd (generateImageWithGemini env params reply w) in
  requests w'
  = requests w
    ++ (if truthy_opt (API_KEY env)
        then [generateContent_request (request_parts params)] else [])
  /\ (openSelectKey_calls w <= openSelectKey_calls w'
      <= S (openSelectKey_calls w))%nat
  /\ (hook_available env = false ->
      openSelectKey_calls w' = openSelectKey_calls w)
  /\ (forall uri,
        fst (generateImageWithGemini env params reply w) = Resolved uri ->
        openSelectKey_calls w' = openSelectKey_calls w).
Proof.
  cbv zeta. destruct (truthy_opt (API_KEY env)) eqn:Hkey.
  - rewrite (generateImageWithGemini_with_key env params reply w Hkey).
    destruct (try_block reply) as [uri|error].
    + cbn [snd fst send requests openSelectKey_calls].
      repeat split; lia.
    + pose proof (catch_block_world error
                    (send (generateContent_request (request_parts params)) w))
        as [Hr [Hc Hn]].
      destruct (catch_block env error
                  (send (generateContent_request (request_parts params)) w))
        as [thrown w'].
      cbn [snd fst send requests openSelectKey_calls] in *.
      repeat split; try lia; try assumption. discriminate.
  - rewrite (generateImageWithGemini_without_key params reply w Hkey).
    cbn [snd fst]. rewrite app_nil_r. repeat split; lia.
Qed.

End ServiceWorld.

(** X1.  Without an API key (undefined or empty) a call fails with the
    configuration error whatever the model would answer, sends nothing
    and leaves the key dialog alone; a generate action that passed its
    guards then ends with that error shown, nothing sent and the
    generated images as they were. *)
Theorem missing_key_stops_before_any_request
  (env : Env) (st : AppState) (reply1 reply2 : api_reply)
  (first_settled : call_index) (w : World) :
  truthy_opt (API_KEY env) = false ->
  (forall params reply,
     generateImageWithGemini env params reply w
     = (Rejected (JsError no_api_key_message), w))
  /\ (validation_error st = None ->
      exists calls,
        handleGenerateImages env st reply1 reply2 first_settled w
        = (calls, w, Returned)
        /\ forall live,
             st_error (run live calls)
             = Some (generation_error_prefix ++ no_api_key_message)
             /\ st_generatedImages (run live calls)
                = st_generatedImages live
             /\ st_loading (run live calls) = false).
Proof.
  intros Hkey. split.
  - intros params reply.
    now apply generateImageWithGemini_without_key.
  - intros Hv.
    assert (Hc : generateCalls env st reply1 reply2 w
                 = (Rejected (JsError no_api_key_message),
                    Rejected (JsError no_api_key_message), w)).
    { unfold generateCalls.
      now rewrite !(generateImageWithGemini_without_key env _ _ w Hkey). }
    rewrite (handleGenerateImages_issued env st reply1 reply2 first_settled
               w w _ _ Hv Hc).
    destruct first_settled; cbn [Promise_all message_text];
      eexists; (split; [reflexivity|]); intros live;
      repeat split.
Qed.

Lemma missing_key_stops_before_any_request_witness :
  exists calls,
    handleGenerateImages
      {| API_KEY := Some []; aistudio := aistudio studio_env |} ready_state
      (Fulfilled (image_response "TkVX"))
      (Fulfilled (image_response "TkVX")) FirstCall fresh_world
    = (calls, fresh_world, Returned)
    /\ st_error (run ready_state calls)
       = Some (generation_error_prefix ++ no_api_key_message).
Proof.
  destruct (missing_key_stops_before_any_request
              {| API_KEY := Some []; aistudio := aistudio studio_env |}
              ready_state (Fulfilled (image_response "TkVX"))
              (Fulfilled (image_response "TkVX")) FirstCall fresh_world)
    as [_ H]; [reflexivity|].
  destruct H as [calls [Hh Hlive]]; [vm_compute; reflexivity|].
  exists calls. split; [exact Hh|]. apply Hlive.
Defined.

(** The invalid-key branch of the [catch] block. *)
Lemma catch_block_not_found (env : Env) (message : js_string) (w : World) :
  includes message RESOURCE_EXHAUSTED = false ->
  includes message NOT_FOUND = true ->
  catch_block env (JsError message) w
  = reselect_and_throw env invalid_key_message_reselect
      invalid_key_message w.
Proof.
  intros H1 H2. unfold catch_block. cbn [error_includes].
  now rewrite H1, H2.
Qed.

(** X2.  A failure that is an [Error] whose message contains
    [Requested entity was not found.] and not [RESOURCE_EXHAUSTED]
    takes the invalid-key branch.  Where the key dialog is available it
    is opened once, and the call returning, the failure is replaced by
    the wording asking to retry after choosing a key; an exception of
    the call itself leaves the service in its place.  Where there is no
    dialog the wording asking to check the key is raised. *)
Theorem not_found_failure_is_localized
  (env : Env) (params : GenerateImageParams) (message : js_string)
  (w : World) :
  truthy_opt (API_KEY env) = true ->
  includes message RESOURCE_EXHAUSTED = false ->
  includes message NOT_FOUND = true ->
  generateImageWithGemini env params (RejectedWith (JsError message)) w
  = if hook_available env
    then (Rejected
            match hook_raises env with
            | Some raised => raised
            | None => JsError invalid_key_message_reselect
            end,
          openSelectKey
            (send (generateContent_request (request_parts params)) w))
    else (Rejected (JsError invalid_key_message),
          send (generateContent_request (request_parts params)) w).
Proof.
  intros Hkey H1 H2.
  rewrite (generateImageWithGemini_with_key env params _ w Hkey).
  cbn [try_block]. rewrite (catch_block_not_found env message _ H1 H2).
  unfold reselect_and_throw.
  destruct (hook_available env); [|reflexivity].
  destruct (hook_raises env); reflexivity.
Qed.

Lemma not_found_failure_is_localized_witness :
  generateImageWithGemini studio_env (generate_params ready_state)
    (RejectedWith (JsError (utf16 "404 Requested entity was not found.")))
    fresh_world
  = (Rejected (JsError invalid_key_message_reselect),
     openSelectKey
       (send (generateContent_request
                (request_parts (generate_params ready_state)))
             fresh_world))
  /\ generateImageWithGemini broken_studio_env (generate_params ready_state)
       (RejectedWith (JsError (utf16 "404 Requested entity was not found.")))
       fresh_world
     = (Rejected (JsError (utf16 "dialog unavailable")),
        openSelectKey
          (send (generateContent_request
                   (request_parts (generate_params ready_state)))
                fresh_world)).
Proof.
  split.
  - apply (not_found_failure_is_localized studio_env
             (generate_params ready_state)
             (utf16 "404 Requested entity was not found.") fresh_world).
    + reflexivity.
    + vm_compute. reflexivity.
    + vm_compute. reflexivity.
  - apply (not_found_failure_is_localized broken_studio_env
             (generate_params ready_state)
             (utf16 "404 Requested entity was not found.") fresh_world).
    + reflexivity.
    + vm_compute. reflexivity.
    + vm_compute. reflexivity.
Defined.

Lemma generateCalls_world (env : Env) (st : AppState)
  (reply1 reply2 : api_reply) (w : World) :
  let w' := snd (generateCalls env st reply1 reply2 w) in
  requests w'
  = requests w
    ++ (if truthy_opt (API_KEY env)
        then [generateContent_request (request_parts (generate_params st));
              generateContent_request (request_parts (generate_params st))]
        else [])
  /\ (openSelectKey_calls w <= openSelectKey_calls w'
      <= 2 + openSelectKey_calls w)%nat
  /\ (hook_available env = false ->
      openSelectKey_calls w' = openSelectKey_calls w)
  /\ (forall r1 r2,
        fst (generateCalls env st reply1 reply2 w)
        = (Resolved r1, Resolved r2) ->
        openSelectKey_calls w' = openSelectKey_calls w).
Proof.
  cbv zeta. unfold generateCalls.
  pose proof (generateImageWithGemini_world env (generate_params st)
                reply1 w) as H1.
  destruct (generateImageWithGemini env (generate_params st) reply1 w)
    as [p1 w1].
  pose proof (generateImageWithGemini_world env (generate_params st)
                reply2 w1) as H2.
  destruct (generateImageWithGemini env (generate_params st) reply2 w1)
    as [p2 w2].
  cbv zeta in H1, H2. cbn [snd fst] in *.
  destruct H1 as [R1 [B1 [N1 S1]]]. destruct H2 as [R2 [B2 [N2 S2]]].
  split; [|split; [|split]].
  - rewrite R2, R1, <- app_assoc.
    destruct (truthy_opt (API_KEY env)); reflexivity.
  - lia.
  - intros Hn. rewrite (N2 Hn). exact (N1 Hn).
  - intros r1 r2 H. injection H as -> ->.
    rewrite (S2 r2 eq_refl). exact (S1 r1 eq_refl).
Qed.

Lemma handleGenerateImages_world (env : Env) (st : AppState)
  (reply1 reply2 : api_reply) (first_settled : call_index) (w : World) :
  snd (fst (handleGenerateImages env st reply1 reply2 first_settled w))
  = match validation_error st with
    | Some _ => w
    | None => snd (generateCalls env st reply1 reply2 w)
    end.
Proof.
  destruct (validation_error st) as [m|] eqn:Hv.
  - unfold handleGenerateImages. now rewrite Hv.
  - destruct (generateCalls env st reply1 reply2 w) as [[p1 p2] w'] eqn:Hc.
    rewrite (handleGenerateImages_issued env st reply1 reply2
               first_settled w w' p1 p2 Hv Hc).
    destruct (Promise_all p1 p2 first_settled) as [r|e]; [reflexivity|].
    destruct (message_text e); reflexivity.
Qed.

(** X3.  With an API key, a generate action that passes its guards
    sends exactly two requests, one after the other and with the same
    body: the model [gemini-2.5-flash-image], the parts built from the
    state, and the image modality; this does not depend on what the
    model answers.  A rejected action sends none. *)
Theorem generate_sends_two_identical_requests
  (env : Env) (st : AppState) (reply1 reply2 : api_reply)
  (first_settled : call_index) (w : World) :
  truthy_opt (API_KEY env) = true ->
  requests
    (snd (fst (handleGenerateImages env st reply1 reply2 first_settled w)))
  = requests w
    ++ match validation_error st with
       | Some _ => []
       | None =>
         [generateContent_request (request_parts (generate_params st));
          generateContent_request (request_parts (generate_params st))]
       end.
Proof.
  intros Hkey. rewrite handleGenerateImages_world.
  destruct (validation_error st).
  - now rewrite app_nil_r.
  - destruct (generateCalls_world env st reply1 reply2 w) as [H _].
    cbv zeta in H. now rewrite H, Hkey.
Qed.

Lemma generate_sends_two_identical_requests_witness :
  List.length
    (requests
       (snd (fst (handleGenerateImages studio_env ready_state
                    (RejectedWith JsNull)
                    (Fulfilled text_response) SecondCall fresh_world))))
  = 2.
Proof.
  rewrite (generate_sends_two_identical_requests studio_env ready_state
             (RejectedWith JsNull) (Fulfilled text_response) SecondCall
             fresh_world eq_refl).
  reflexivity.
Defined.

(** X4.  One call opens the key dialog at most once, and one generate
    action at most twice; the dialog is never opened when the host
    provides none, nor by an action whose two calls both succeed or
    which is stopped by a guard. *)
Theorem key_dialog_opened_at_most_twice
  (env : Env) (st : AppState) (reply1 reply2 : api_reply)
  (first_settled : call_index) (w : World) :
  let w' :=
    snd (fst (handleGenerateImages env st reply1 reply2 first_settled w)) in
  (forall params reply w0,
     openSelectKey_calls w0
     <= openSelectKey_calls
          (snd (generateImageWithGemini env params reply w0))
     <= S (openSelectKey_calls w0))%nat
  /\ (openSelectKey_calls w <= openSelectKey_calls w'
      <= 2 + openSelectKey_calls w)%nat
  /\ (hook_available env = false ->
      openSelectKey_calls w' = openSelectKey_calls w)
  /\ (forall message, validation_error st = Some message ->
      openSelectKey_calls w' = openSelectKey_calls w)
  /\ (forall r1 r2,
        fst (generateCalls env st reply1 reply2 w)
        = (Resolved r1, Resolved r2) ->
        openSelectKey_calls w' = openSelectKey_calls w).
Proof.
  cbv zeta. rewrite handleGenerateImages_world. split.
  - intros params reply w0.
    apply (generateImageWithGemini_world env params reply w0).
  - destruct (generateCalls_world env st reply1 reply2 w)
      as [_ [B [N S2]]]. cbv zeta in B, N, S2.
    destruct (validation_error st) as [m|].
    + repeat split; try lia.
    + split; [exact B|]. split; [exact N|]. split; [discriminate|exact S2].
Qed.

Lemma key_dialog_opened_at_most_twice_witness :
  openSelectKey_calls
    (snd (fst (handleGenerateImages studio_env ready_state
                 (RejectedWith (JsError RESOURCE_EXHAUSTED))
                 (RejectedWith (JsError NOT_FOUND)) FirstCall fresh_world)))
  = 2
  /\ openSelectKey_calls
       (snd (fst (handleGenerateImages plain_env ready_state
                    (RejectedWith (JsError RESOURCE_EXHAUSTED))
                    (RejectedWith (JsError NOT_FOUND)) FirstCall
                    fresh_world)))
     = openSelectKey_calls fresh_world.
Proof.
  split; [vm_compute; reflexivity|].
  apply (key_dialog_opened_at_most_twice plain_env ready_state
           (RejectedWith (JsError RESOURCE_EXHAUSTED))
           (RejectedWith (JsError NOT_FOUND)) FirstCall fresh_world).
  reflexivity.
Defined.

(* ================================================================== *)
(** ** The request of a generate action                                *)
(* ================================================================== *)

Lemma request_parts_of_state (st : AppState) :
  request_parts (generate_params st) =
  TextPart (finalPrompt st)
  :: match bgImage st with Some bg => [image_part bg] | None => [] end
  ++ List.map (fun char => image_part (to_image_ref char))
       (List.filter is_selected (st_characterImages st)).
Proof.
  rewrite request_parts_closed.
  cbn [generate_params prompt useBackground backgroundImage characterImages].
  unfold selectedCharImages. now rewrite selected_parts, bgImage_parts.
Qed.

Lemma existsb_filter_length {A : Type} (p : A -> bool) (l : list A) :
  existsb p l = true -> (1 <= List.length (List.filter p l))%nat.
Proof.
  induction l as [|x l IH]; cbn [existsb List.filter]; [discriminate|].
  destruct (p x); cbn [orb List.length]; [lia|exact IH].
Qed.

Lemma image_parts_inline (chars : list CharacterImage) :
  forallb is_inline
    (List.map (fun char => image_part (to_image_ref char)) chars) = true.
Proof. induction chars as [|c l IH]; [reflexivity|exact IH]. Qed.

(** X5.  The request of an action that passed the guards is never
    without an image: after the text part come only inline-image
    parts, one for the background in use and one for each selected
    character, and there is at least one of them. *)
Theorem accepted_request_carries_an_image (st : AppState) :
  validation_error st = None ->
  exists images,
    request_parts (generate_params st) = TextPart (finalPrompt st) :: images
    /\ forallb is_inline images = true
    /\ List.length images
       = ((if isSome (bgImage st) then 1 else 0)
          + List.length (List.filter is_selected (st_characterImages st)))%nat
    /\ (1 <= List.length images)%nat.
Proof.
  intros Hv. rewrite validation_error_cases in Hv.
  assert (Href : has_reference st = true).
  { destruct (has_reference st); [reflexivity|discriminate Hv]. }
  rewrite request_parts_of_state. eexists. split; [reflexivity|].
  assert (Hlen : List.length
            (match bgImage st with Some bg => [image_part bg] | None => [] end
             ++ List.map (fun char => image_part (to_image_ref char))
                  (List.filter is_selected (st_characterImages st)))
          = ((if isSome (bgImage st) then 1 else 0)
             + List.length (List.filter is_selected (st_characterImages st)))%nat).
  { rewrite length_app, length_map. destruct (bgImage st); reflexivity. }
  split; [|split; [exact Hlen|]].
  - rewrite forallb_app. apply andb_true_iff. split.
    + destruct (bgImage st); reflexivity.
    + apply image_parts_inline.
  - rewrite Hlen. unfold has_reference in Href.
    apply orb_true_iff in Href as [H|H].
    + apply existsb_filter_length in H. lia.
    + rewrite H. lia.
Qed.

Lemma accepted_request_carries_an_image_witness :
  exists images,
    request_parts (generate_params ready_state)
    = TextPart (finalPrompt ready_state) :: images
    /\ List.length images = 2.
Proof.
  destruct (accepted_request_carries_an_image ready_state)
    as [images [Hp [_ [Hl _]]]]; [vm_compute; reflexivity|].
  exists images. split; [exact Hp|]. rewrite Hl. reflexivity.
Defined.

(* ================================================================== *)
(** ** stripDataPrefix and the data URI of a result                    *)
(* ================================================================== *)

Lemma includes_split (c : code_unit) (x : js_string) :
  includes x [c] = true ->
  exists pre rest, x = pre ++ c :: rest /\ ~ In c pre.
Proof.
  induction x as [|d x IH]; cbn [includes startsWith].
  - discriminate.
  - rewrite andb_true_r. destruct (code_unit_eqb c d) eqn:E; cbn [orb].
    + intros _. apply code_unit_eqb_eq in E as <-.
      exists [], x. split; [reflexivity|intros []].
    + intros H. destruct (IH H) as [pre [rest [-> Hpre]]].
      exists (d :: pre), rest. split; [reflexivity|].
      intros [->|Hin]; [|exact (Hpre Hin)].
      unfold code_unit_eqb in E. rewrite N.eqb_refl in E. discriminate E.
Qed.

(** X9.  [stripDataPrefix] only ever drops a head of its argument: the
    result is the argument itself, or what follows the first comma of
    an argument that begins with [data:]; the characters kept are never
    altered. *)
Theorem stripDataPrefix_keeps_a_suffix (x : js_string) :
  exists head,
    x = head ++ stripDataPrefix x
    /\ (head = []
        \/ exists before,
             head = before ++ [comma] /\ ~ In comma before
             /\ startsWith x data_prefix = true).
Proof.
  destruct (startsWith x data_prefix && includes x [comma]) eqn:E.
  - apply andb_true_iff in E as [Hp Hc].
    destruct (includes_split comma x Hc) as [pre [rest [Hx Hpre]]].
    exists (pre ++ [comma]).
    rewrite (stripDataPrefix_cuts x pre rest Hp Hx Hpre). split.
    + now rewrite <- app_assoc.
    + right. exists pre. auto.
  - exists []. rewrite (stripDataPrefix_passes x E). auto.
Qed.

Lemma data_uri_split (mime payload : js_string) :
  data_uri mime payload
  = (data_prefix ++ mime ++ utf16 ";base64") ++ comma :: payload.
Proof.
  unfold data_uri. change (utf16 ";base64,") with (utf16 ";base64" ++ [comma]).
  change (utf16 "data:") with data_prefix.
  now rewrite <- !app_assoc.
Qed.

(** X8.  The data URI of a generated image and [stripDataPrefix] are
    inverse to each other on the payload: stripping
    [data:<mime>;base64,<payload>] gives back the payload whenever the
    MIME type contains no comma.  So a result returned by
    [generateImageWithGemini], used again as a reference image, is sent
    with exactly the payload the model returned. *)
Theorem stripDataPrefix_recovers_payload (mime payload : js_string) :
  ~ In comma mime ->
  stripDataPrefix (data_uri mime payload) = payload
  /\ forall (response : GenerateContentResponse) (g : InlineData)
            (uri : js_string),
       generatedImagePart response = Some g ->
       inline_mimeType g = mime -> data g = payload ->
       try_block (Fulfilled response) = Resolved uri ->
       image_part {| base64 := uri; mimeType := mime |}
       = InlineDataPart g.
Proof.
  intros Hmime.
  assert (Hstrip : stripDataPrefix (data_uri mime payload) = payload).
  { apply (stripDataPrefix_cuts (data_uri mime payload)
             (data_prefix ++ mime ++ utf16 ";base64") payload).
    - apply startsWith_app. exists (mime ++ utf16 ";base64," ++ payload).
      reflexivity.
    - apply data_uri_split.
    - rewrite !in_app_iff. intros [H|[H|H]].
      + vm_compute in H. intuition discriminate.
      + exact (Hmime H).
      + vm_compute in H. intuition discriminate. }
  split; [exact Hstrip|].
  intros response g uri Hg Hm Hd Htry. unfold try_block in Htry.
  rewrite Hg in Htry.
  assert (Huri : uri = data_uri mime payload).
  { unfold data_uri. rewrite <- Hm, <- Hd. congruence. }
  unfold image_part. cbn [base64 mimeType]. rewrite Huri, Hstrip.
  destruct g as [m d]. cbn [inline_mimeType data] in Hm, Hd.
  now subst.
Qed.

Lemma stripDataPrefix_recovers_payload_witness :
  stripDataPrefix (data_uri (utf16 "image/png") (utf16 "TkVX,a,b"))
  = utf16 "TkVX,a,b".
Proof.
  apply (stripDataPrefix_recovers_payload (utf16 "image/png")
           (utf16 "TkVX,a,b")).
  vm_compute. intuition discriminate.
Defined.

(* ================================================================== *)
(** ** handleGenerateImages on every path                              *)
(* ================================================================== *)

(** The three ways the handler can go, with the setter calls of each. *)
Lemma handleGenerateImages_paths
  (env : Env) (st : AppState) (reply1 reply2 : api_reply)
  (first_settled : call_index) (w : World) :
  let calls :=
    fst (fst (handleGenerateImages env st reply1 reply2 first_settled w)) in
  (exists message,
     calls = [setLoading true; setError None; setError (Some message);
              setLoading false])
  \/ (exists r1 r2,
        fst (generateCalls env st reply1 reply2 w)
        = (Resolved r1, Resolved r2)
        /\ validation_error st = None
        /\ calls = [setLoading true; setError None;
                    setGeneratedImages (fun prev => [r1; r2] ++ prev);
                    setLoading false])
  \/ calls = [setLoading true; setError None; setLoading false].
Proof.
  cbv zeta. destruct (validation_error st) as [m|] eqn:Hv.
  - left. exists m. unfold handleGenerateImages. now rewrite Hv.
  - destruct (generateCalls env st reply1 reply2 w) as [[p1 p2] w'] eqn:Hc.
    rewrite (handleGenerateImages_issued env st reply1 reply2
               first_settled w w' p1 p2 Hv Hc).
    destruct p1 as [r1|e1]; destruct p2 as [r2|e2]; cbn [Promise_all].
    + right. left. exists r1, r2. auto.
    + destruct (message_text e2) as [m|]; [left; eexists; reflexivity|now right; right].
    + destruct (message_text e1) as [m|]; [left; eexists; reflexivity|now right; right].
    + destruct first_settled.
      * destruct (message_text e1) as [m|];
          [left; eexists; reflexivity|now right; right].
      * destruct (message_text e2) as [m|];
          [left; eexists; reflexivity|now right; right].
Qed.

(** X7.  However a generate action ends (stopped by a guard, both calls
    successful, a call failed, or even the failure left without a
    readable message), its first setter call raises [loading], its last
    one lowers it, and [loading] is false once its calls are applied. *)
Theorem loading_is_always_reset
  (env : Env) (st : AppState) (reply1 reply2 : api_reply)
  (first_settled : call_index) (w : World) :
  let calls :=
    fst (fst (handleGenerateImages env st reply1 reply2 first_settled w)) in
  hd_error calls = Some (setLoading true)
  /\ (exists before, calls = before ++ [setLoading false])
  /\ forall live, st_loading (run live calls) = false.
Proof.
  destruct (handleGenerateImages_paths env st reply1 reply2 first_settled w)
    as [[m H]|[[r1 [r2 [_ [_ H]]]]|H]]; cbv zeta in H |- *; rewrite H.
  - split; [reflexivity|]. split; [|reflexivity].
    now exists [setLoading true; setError None; setError (Some m)].
  - split; [reflexivity|]. split; [|reflexivity].
    now exists [setLoading true; setError None;
                setGeneratedImages (fun prev => [r1; r2] ++ prev)].
  - split; [reflexivity|]. split; [|reflexivity].
    now exists [setLoading true; setError None].
Qed.

(** X10.  A generate action never removes or reorders a generated
    image: afterwards the list is the list of before, with nothing or
    with exactly the two new results in front, the latter only when the
    guards passed and both calls succeeded.  The saved images and the
    reference images are not touched. *)
Theorem generate_only_prepends
  (env : Env) (st : AppState) (reply1 reply2 : api_reply)
  (first_settled : call_index) (w : World) (live : AppState) :
  let st' :=
    run live
      (fst (fst (handleGenerateImages env st reply1 reply2
                   first_settled w))) in
  (st_generatedImages st' = st_generatedImages live
   \/ exists r1 r2,
        st_generatedImages st' = r1 :: r2 :: st_generatedImages live
        /\ validation_error st = None
        /\ fst (generateCalls env st reply1 reply2 w)
           = (Resolved r1, Resolved r2))
  /\ st_savedImages st' = st_savedImages live
  /\ st_characterImages st' = st_characterImages live
  /\ st_backgroundImage st' = st_backgroundImage live
  /\ st_prompt st' = st_prompt live.
Proof.
  destruct (handleGenerateImages_paths env st reply1 reply2 first_settled w)
    as [[m H]|[[r1 [r2 [Hc [Hv H]]]]|H]]; cbv zeta in H |- *; rewrite H.
  - split; [left; reflexivity|]. repeat split.
  - split; [|repeat split]. right. exists r1, r2. repeat split; assumption.
  - split; [left; reflexivity|]. repeat split.
Qed.

(* ================================================================== *)
(** ** The reference images: upload, delete, toggle                    *)
(* ================================================================== *)

Section IndexedMap.

Context {A B : Type}.

Lemma mapi_from_nth (f : A -> nat -> B) (k : nat) (l : list A) (i : nat) :
  nth_error (mapi_from f k l) i
  = option_map (fun x => f x (k + i)%nat) (nth_error l i).
Proof.
  revert k i. induction l as [|x l IH]; intros k [|i]; cbn; try reflexivity.
  - now rewrite Nat.add_0_r.
  - rewrite IH. now rewrite Nat.add_succ_r.
Qed.

Lemma mapi_nth (f : A -> nat -> B) (l : list A) (i : nat) :
  nth_error (mapi f l) i = option_map (fun x => f x i) (nth_error l i).
Proof. unfold mapi. now rewrite mapi_from_nth. Qed.

Lemma mapi_from_length (f : A -> nat -> B) (k : nat) (l : list A) :
  List.length (mapi_from f k l) = List.length l.
Proof.
  revert k. induction l as [|x l IH]; intros k; cbn; [reflexivity|].
  now rewrite IH.
Qed.

Lemma mapi_from_map {C : Type} (f : A -> nat -> B) (g : B -> C)
  (h : A -> C) (k : nat) (l : list A) :
  (forall x i, g (f x i) = h x) ->
  List.map g (mapi_from f k l) = List.map h l.
Proof.
  intros H. revert k. induction l as [|x l IH]; intros k; cbn;
    [reflexivity|]. now rewrite H, IH.
Qed.

Lemma mapi_from_forallb (f : A -> nat -> B) (p : A -> bool) (q : B -> bool)
  (k : nat) (l : list A) :
  (forall x i, p x = true -> q (f x i) = true) ->
  forallb p l = true -> forallb q (mapi_from f k l) = true.
Proof.
  intros H. revert k. induction l as [|x l IH]; intros k; cbn;
    [reflexivity|].
  intros Hl. apply andb_true_iff in Hl as [Hx Hl].
  now rewrite (H x k Hx), (IH (S k) Hl).
Qed.

End IndexedMap.

Lemma nth_error_ext {A : Type} (l l' : list A) :
  (forall i, nth_error l i = nth_error l' i) -> l = l'.
Proof.
  revert l'. induction l as [|x l IH]; intros [|y l'] H.
  - reflexivity.
  - discriminate (H 0%nat).
  - discriminate (H 0%nat).
  - pose proof (H 0%nat) as H0. injection H0 as ->. f_equal.
    apply IH. intros i. exact (H (S i)).
Qed.

(** X11.  A successful upload into a character slot fills that slot
    only: it gets the file, the payload and the preview, is ticked, and
    keeps its id; every other slot, the number of slots, the background
    and the generated images stay as they are, and the error is
    cleared.  An index beyond the last slot changes no slot. *)
Theorem upload_fills_one_slot
  (st : AppState) (index : nat) (f : File) (payload previewUrl : js_string) :
  let st' :=
    run_setters st
      (fst (handleFileChange character (Some index) (Some f)
              (Resolved payload) previewUrl)) in
  List.length (st_characterImages st') = List.length (st_characterImages st)
  /\ (forall i, i <> index ->
        nth_error (st_characterImages st') i
        = nth_error (st_characterImages st) i)
  /\ (forall char,
        nth_error (st_characterImages st) index = Some char ->
        nth_error (st_characterImages st') index
        = Some {| char_id := char_id char;
                  char_file := Some f;
                  char_base64 := Some payload;
                  char_selected := true;
                  char_previewUrl := Some previewUrl |})
  /\ (List.length (st_characterImages st) <= index ->
      st_characterImages st' = st_characterImages st)
  /\ st_error st' = None
  /\ st_backgroundImage st' = st_backgroundImage st
  /\ st_generatedImages st' = st_generatedImages st.
Proof.
  cbv zeta.
  cbn [handleFileChange fst app run_setters fold_left apply_setter apply_set
       st_characterImages st_error st_backgroundImage st_generatedImages].
  assert (Hother : forall i, i <> index ->
            nth_error
              (mapi (fun char i0 =>
                 if Nat.eqb i0 index then
                   {| char_id := char_id char; char_file := Some f;
                      char_base64 := Some payload; char_selected := true;
                      char_previewUrl := Some previewUrl |}
                 else char) (st_characterImages st)) i
            = nth_error (st_characterImages st) i).
  { intros i Hi. rewrite mapi_nth.
    apply Nat.eqb_neq in Hi. rewrite Hi.
    destruct (nth_error (st_characterImages st) i); reflexivity. }
  split; [apply mapi_from_length|]. split; [exact Hother|]. split.
  - intros char Hc. rewrite mapi_nth, Hc. cbn [option_map].
    now rewrite Nat.eqb_refl.
  - split; [|repeat split].
    intros Hlen. apply nth_error_ext. intros i.
    destruct (Nat.eq_dec i index) as [->|Hi]; [|now apply Hother].
    rewrite mapi_nth.
    assert (Hn : nth_error (st_characterImages st) index = None)
      by now apply nth_error_None.
    now rewrite Hn.
Qed.

Lemma cleared_empty (char : CharacterImage) :
  char_file char = None -> char_base64 char = None ->
  char_selected char = false -> char_previewUrl char = None ->
  cleared char = char.
Proof.
  destruct char as [i f b s p]. cbn. intros -> -> -> ->. reflexivity.
Qed.

(** X12.  Deleting the image of a character slot empties that slot and
    keeps its id, whatever was uploaded into it before: upload followed
    by delete leaves the slots as delete alone does, and gives back the
    slots of before when the slot was empty.  Choosing no file in the
    file dialog empties the slot in the same way. *)
Theorem delete_undoes_upload
  (st : AppState) (index : nat) (f : File) (payload previewUrl : js_string) :
  let uploaded :=
    run_setters st
      (fst (handleFileChange character (Some index) (Some f)
              (Resolved payload) previewUrl)) in
  st_characterImages
    (run_setters uploaded (handleDeleteImage character (Some index)))
  = st_characterImages
      (run_setters st (handleDeleteImage character (Some index)))
  /\ (forall i char,
        nth_error (st_characterImages st) i = Some char ->
        nth_error
          (st_characterImages
             (run_setters st (handleDeleteImage character (Some index)))) i
        = Some (if Nat.eqb i index then cleared char else char))
  /\ ((forall char,
         nth_error (st_characterImages st) index = Some char ->
         cleared char = char) ->
      st_characterImages
        (run_setters uploaded (handleDeleteImage character (Some index)))
      = st_characterImages st)
  /\ (forall files read url,
        fst (handleFileInputChange files) = None ->
        st_characterImages
          (step uploaded (FileChosen character (Some index) files read url))
        = st_characterImages
            (run_setters st (handleDeleteImage character (Some index)))).
Proof.
  cbv zeta.
  assert (Hdel : forall l i,
            nth_error
              (mapi (fun char i0 =>
                 if Nat.eqb i0 index then cleared char else char) l) i
            = option_map
                (fun char => if Nat.eqb i index then cleared char else char)
                (nth_error l i)).
  { intros l i. now rewrite mapi_nth. }
  assert (Hcomp :
    mapi (fun char i0 => if Nat.eqb i0 index then cleared char else char)
      (mapi (fun char i0 =>
         if Nat.eqb i0 index then
           {| char_id := char_id char; char_file := Some f;
              char_base64 := Some payload; char_selected := true;
              char_previewUrl := Some previewUrl |}
         else char) (st_characterImages st))
    = mapi (fun char i0 => if Nat.eqb i0 index then cleared char else char)
        (st_characterImages st)).
  { apply nth_error_ext. intros i. rewrite !Hdel, mapi_nth.
    destruct (nth_error (st_characterImages st) i) as [char|];
      [|reflexivity].
    cbn [option_map]. destruct (Nat.eqb i index); reflexivity. }
  split; [exact Hcomp|]. split; [|split].
  - intros i char Hc.
    cbn [handleDeleteImage clear_image run_setters fold_left apply_setter
         apply_set st_characterImages].
    now rewrite Hdel, Hc.
  - intros Hempty.
    cbn [handleFileChange handleDeleteImage clear_image fst app run_setters
         fold_left apply_setter apply_set st_characterImages].
    rewrite Hcomp. apply nth_error_ext. intros i. rewrite Hdel.
    destruct (nth_error (st_characterImages st) i) as [char|] eqn:Hc;
      [|reflexivity].
    cbn [option_map]. destruct (Nat.eqb i index) eqn:Hi; [|reflexivity].
    apply Nat.eqb_eq in Hi. subst i. now rewrite (Hempty char Hc).
  - intros files read url Hnone. cbn [step]. rewrite Hnone.
    cbn [handleFileChange handleDeleteImage clear_image fst app run_setters
         fold_left apply_setter apply_set st_characterImages].
    exact Hcomp.
Qed.

Lemma delete_undoes_upload_witness :
  st_characterImages
    (run_setters
       (run_setters initial_state
          (fst (handleFileChange character (Some 2) (Some (png "cat.png"))
                  (Resolved (utf16 "data:image/png;base64,Q0FU"))
                  (utf16 "blob:cat"))))
       (handleDeleteImage character (Some 2)))
  = st_characterImages initial_state.
Proof.
  destruct (delete_undoes_upload initial_state 2 (png "cat.png")
              (utf16 "data:image/png;base64,Q0FU") (utf16 "blob:cat"))
    as [_ [_ [H _]]].
  apply H. intros char Hc. vm_compute in Hc. injection Hc as <-.
  reflexivity.
Defined.

(** X13.  When the file cannot be read, nothing is uploaded: the
    reference images stay as they are and the error shown is
    [Failed to read file: ] followed by the message of the failure.  A
    failure value without a [message], such as the event that
    [FileReader.onerror] hands over, is shown as
    [Failed to read file: undefined]. *)
Theorem failed_read_changes_no_image
  (st : AppState) (type : ImageType) (index : option nat) (f : File)
  (err : js_value) (previewUrl : js_string) :
  let st' :=
    run_setters st
      (fst (handleFileChange type index (Some f) (Rejected err)
              previewUrl)) in
  st_characterImages st' = st_characterImages st
  /\ st_backgroundImage st' = st_backgroundImage st
  /\ (forall message,
        message_text err = Some message ->
        st_error st' = Some (file_error_prefix ++ message))
  /\ (err = JsObject None ->
      st_error st' = Some (utf16 "Failed to read file: undefined")).
Proof.
  cbv zeta. unfold handleFileChange.
  destruct (message_text err) as [m|] eqn:Hm.
  - cbn [fst app run_setters fold_left apply_setter apply_set
         st_characterImages st_backgroundImage st_error].
    split; [reflexivity|]. split; [reflexivity|]. split.
    + intros message H. now injection H as <-.
    + intros ->. cbn [message_text] in Hm. injection Hm as <-.
      reflexivity.
  - cbn [fst run_setters fold_left apply_setter apply_set
         st_characterImages st_backgroundImage st_error].
    split; [reflexivity|]. split; [reflexivity|]. split.
    + discriminate.
    + intros ->. discriminate Hm.
Qed.

Lemma failed_read_changes_no_image_witness :
  st_error
    (run_setters ready_state
       (fst (handleFileChange background None (Some (png "bg.png"))
               (Rejected (JsError (utf16 "NotReadableError")))
               (utf16 "blob:bg"))))
  = Some (file_error_prefix ++ utf16 "NotReadableError").
Proof.
  apply (failed_read_changes_no_image ready_state background None
           (png "bg.png") (JsError (utf16 "NotReadableError"))
           (utf16 "blob:bg")).
  reflexivity.
Defined.

Lemma upload_fills_one_slot_witness :
  nth_error
    (st_characterImages
       (run_setters initial_state
          (fst (handleFileChange character (Some 1) (Some (png "dog.png"))
                  (Resolved (utf16 "data:image/png;base64,RE9H"))
                  (utf16 "blob:dog"))))) 1
  = Some {| char_id := utf16 "char-2";
            char_file := Some (png "dog.png");
            char_base64 := Some (utf16 "data:image/png;base64,RE9H");
            char_selected := true;
            char_previewUrl := Some (utf16 "blob:dog") |}
  /\ st_characterImages
       (run_setters initial_state
          (fst (handleFileChange character (Some 4) (Some (png "dog.png"))
                  (Resolved (utf16 "data:image/png;base64,RE9H"))
                  (utf16 "blob:dog"))))
     = st_characterImages initial_state.
Proof.
  split.
  - destruct (upload_fills_one_slot initial_state 1 (png "dog.png")
                (utf16 "data:image/png;base64,RE9H") (utf16 "blob:dog"))
      as [_ [_ [H _]]].
    apply (H (empty_character "2")). reflexivity.
  - destruct (upload_fills_one_slot initial_state 4 (png "dog.png")
                (utf16 "data:image/png;base64,RE9H") (utf16 "blob:dog"))
      as [_ [_ [_ [H _]]]].
    apply H. cbn. lia.
Defined.

(* ================================================================== *)
(** ** The shape the reference images keep                             *)
(* ================================================================== *)

Section WellFormed.

Lemma well_formed_initial : well_formed initial_state.
Proof.
  unfold well_formed. repeat split. discriminate.
Qed.

Lemma slots_kept (f : CharacterImage -> nat -> CharacterImage)
  (st : AppState) :
  (forall char i, char_id (f char i) = char_id char) ->
  (forall char i, slot_consistent char = true ->
                  slot_consistent (f char i) = true) ->
  well_formed st ->
  well_formed (apply_set st (setCharacterImages (mapi f))).
Proof.
  intros Hid Hc [Hids [Hslots [Hbg Huse]]]. unfold well_formed.
  cbn [apply_set st_characterImages st_backgroundImage].
  split; [|split; [|split; assumption]].
  - rewrite <- Hids. unfold mapi. now apply mapi_from_map.
  - unfold mapi. now apply (mapi_from_forallb f slot_consistent).
Qed.

Lemma well_formed_error (st : AppState) (e : option js_string) :
  well_formed st -> well_formed (apply_set st (setError e)).
Proof. intros H. exact H. Qed.

Lemma well_formed_clear (st : AppState) (type : ImageType)
  (index : option nat) :
  well_formed st -> well_formed (run_setters st (clear_image type index)).
Proof.
  intros H. destruct type; [destruct index as [index|]|]; cbn; try exact H.
  - apply slots_kept; try exact H.
    + intros char i. destruct (Nat.eqb i index); reflexivity.
    + intros char i Hc. destruct (Nat.eqb i index); [reflexivity|exact Hc].
  - destruct H as [Hids [Hslots _]]. unfold well_formed. cbn.
    repeat split; try assumption. discriminate.
Qed.

Lemma well_formed_step (st : AppState) (e : Event) :
  well_formed st -> well_formed (step st e).
Proof.
  intros H. destruct e as [type index files read url|type index|index sel|use];
    cbn [step].
  - unfold handleFileChange.
    destruct (fst (handleFileInputChange files)) as [f|].
    + destruct read as [payload|err].
      * destruct type; [destruct index as [index|]|];
          cbn [fst app run_setters fold_left apply_setter]; try exact H.
        -- apply slots_kept; try exact H.
           ++ intros char i. destruct (Nat.eqb i index); reflexivity.
           ++ intros char i Hc.
              destruct (Nat.eqb i index); [reflexivity|exact Hc].
        -- destruct H as [Hids [Hslots _]]. unfold well_formed. cbn.
           repeat split; assumption.
      * destruct (message_text err); cbn [fst app run_setters fold_left
                                          apply_setter]; exact H.
    + cbn [fst]. change (run_setters st
                           ([state_call (setError None)]
                            ++ clear_image type index))
        with (run_setters (apply_set st (setError None))
                (clear_image type index)).
      apply well_formed_clear. exact H.
  - apply well_formed_clear. exact H.
  - apply (slots_kept
             (fun char i =>
                if Nat.eqb i index then
                  {| char_id := char_id char; char_file := char_file char;
                     char_base64 := char_base64 char; char_selected := sel;
                     char_previewUrl := char_previewUrl char |}
                else char)); try exact H.
    + intros char i. destruct (Nat.eqb i index); reflexivity.
    + intros char i Hc. destruct (Nat.eqb i index); exact Hc.
  - destruct (isSome (bg_file (st_backgroundImage st))) eqn:Hf; [|exact H].
    destruct H as [Hids [Hslots [Hbg _]]]. unfold well_formed. cbn.
    repeat split; try assumption. intros _. exact Hf.
Qed.

End WellFormed.

(** X14.  Whatever the user does to the reference images (choosing or
    cancelling files, failed reads, deleting, ticking characters,
    switching the background where the switch is enabled), starting
    from the mounted component: there are always the four slots
    [char-1] to [char-4] in this order, a slot or the background has a
    file exactly when it has a payload, and the background is in use
    only with a file.  The file tests in the filter of the selected
    characters and in the choice of the background are therefore
    implied by the payload tests. *)
Theorem reference_images_stay_well_formed (events : list Event) :
  let st := steps_from initial_state events in
  well_formed st
  /\ List.length (st_characterImages st) = 4
  /\ (forall char, In char (st_characterImages st) ->
        is_selected char
        = char_selected char && truthy_opt (char_base64 char))
  /\ isSome (bgImage st)
     = bg_useBackground (st_backgroundImage st)
       && truthy_opt (bg_base64 (st_backgroundImage st)).
Proof.
  cbv zeta.
  assert (Hwf : forall st, well_formed st ->
                           well_formed (steps_from st events)).
  { unfold steps_from. induction events as [|e l IH]; intros st H;
      [exact H|]. cbn [fold_left]. apply IH. now apply well_formed_step. }
  specialize (Hwf initial_state well_formed_initial).
  split; [exact Hwf|].
  destruct Hwf as [Hids [Hslots [Hbg Huse]]]. split; [|split].
  - apply (f_equal (@List.length js_string)) in Hids.
    rewrite !length_map in Hids. exact Hids.
  - intros char Hin. rewrite forallb_forall in Hslots.
    specialize (Hslots char Hin). unfold slot_consistent in Hslots.
    apply eqb_prop in Hslots. unfold is_selected.
    destruct (char_file char); destruct (char_base64 char);
      cbn [isSome truthy_opt] in *; try discriminate Hslots;
      now rewrite ?andb_true_r, ?andb_false_r.
  - unfold bgImage.
    destruct (bg_file (st_backgroundImage (steps_from initial_state events)));
      destruct (bg_base64
                  (st_backgroundImage (steps_from initial_state events)))
        as [b|];
      cbn [isSome truthy_opt] in *; try discriminate Hbg.
    + destruct (bg_useBackground _ && truthy b); reflexivity.
    + now rewrite andb_false_r.
Qed.

Lemma reference_images_stay_well_formed_witness :
  let st :=
    steps_from initial_state
      [FileChosen character (Some 0) (Some [png "cat.png"])
         (Resolved (utf16 "data:image/png;base64,Q0FU")) (utf16 "blob:cat");
       BackgroundSwitched true;
       CharacterTicked 3 true;
       FileChosen background None (Some [png "bg.png"])
         (Resolved (utf16 "data:image/png;base64,Qkc=")) (utf16 "blob:bg");
       FileChosen character (Some 0) (Some []) (Resolved []) []] in
  is_selected (empty_character "1")
  = char_selected (empty_character "1")
    && truthy_opt (char_base64 (empty_character "1"))
  /\ isSome (bgImage st) = true.
Proof.
  cbv zeta.
  destruct (reference_images_stay_well_formed
              [FileChosen character (Some 0) (Some [png "cat.png"])
                 (Resolved (utf16 "data:image/png;base64,Q0FU"))
                 (utf16 "blob:cat");
               BackgroundSwitched true;
               CharacterTicked 3 true;
               FileChosen background None (Some [png "bg.png"])
                 (Resolved (utf16 "data:image/png;base64,Qkc="))
                 (utf16 "blob:bg");
               FileChosen character (Some 0) (Some []) (Resolved []) []])
    as [_ [_ [Hsel Hbg]]].
  split.
  - apply Hsel. left. reflexivity.
  - rewrite Hbg. reflexivity.
Defined.

(* ================================================================== *)
(** ** Ticking characters and switching the background                 *)
(* ================================================================== *)

Lemma toggle_same (index : nat) (b : bool) (st : AppState) :
  (forall char, nth_error (st_characterImages st) index = Some char ->
                char_selected char = b) ->
  toggle index b st = st.
Proof.
  intros H. destruct st as [chars bg p g l e s r].
  unfold toggle, run, handleToggleCharacterSelect.
  cbn [fold_left apply_set st_characterImages st_backgroundImage st_prompt
       st_generatedImages st_loading st_error st_savedImages
       st_selectedAspectRatio] in *.
  f_equal. apply nth_error_ext. intros i. rewrite mapi_nth.
  destruct (nth_error chars i) as [char|] eqn:Hc; [|reflexivity].
  cbn [option_map]. destruct (Nat.eqb i index) eqn:Hi; [|reflexivity].
  apply Nat.eqb_eq in Hi. subst i. rewrite <- (H char Hc).
  destruct char; reflexivity.
Qed.

Lemma toggle_last_wins (index : nat) (a b : bool) (st : AppState) :
  toggle index a (toggle index b st) = toggle index a st.
Proof.
  unfold toggle, run, handleToggleCharacterSelect.
  cbn [fold_left apply_set st_characterImages st_backgroundImage st_prompt
       st_generatedImages st_loading st_error st_savedImages
       st_selectedAspectRatio].
  f_equal. apply nth_error_ext. intros i. rewrite !mapi_nth.
  destruct (nth_error (st_characterImages st) i) as [char|];
    [|reflexivity].
  cbn [option_map]. destruct (Nat.eqb i index); reflexivity.
Qed.

(** X15.  Ticking the check box of a character changes the tick of that
    slot and nothing else: the file, the payload and the preview stay.
    Unticking a ticked character and ticking it again gives back the
    same state, hence the same request; of two clicks on one check box
    the last one counts. *)
Theorem tick_is_reversible (st : AppState) (index : nat) (b : bool) :
  (forall char, nth_error (st_characterImages st) index = Some char ->
                char_selected char = b) ->
  toggle index b (toggle index (negb b) st) = st
  /\ request_parts (generate_params (toggle index b (toggle index (negb b) st)))
     = request_parts (generate_params st)
  /\ (forall a c, toggle index a (toggle index c st) = toggle index a st)
  /\ (forall a i char,
        nth_error (st_characterImages st) i = Some char ->
        exists char',
          nth_error (st_characterImages (toggle index a st)) i = Some char'
          /\ char_id char' = char_id char
          /\ char_file char' = char_file char
          /\ char_base64 char' = char_base64 char
          /\ char_previewUrl char' = char_previewUrl char
          /\ char_selected char'
             = if Nat.eqb i index then a else char_selected char).
Proof.
  intros H.
  assert (E : toggle index b (toggle index (negb b) st) = st).
  { rewrite toggle_last_wins. now apply toggle_same. }
  split; [exact E|]. split; [now rewrite E|].
  split; [intros a c; apply toggle_last_wins|].
  intros a i char Hc. unfold toggle, run, handleToggleCharacterSelect.
  cbn [fold_left apply_set st_characterImages].
  rewrite mapi_nth, Hc. cbn [option_map].
  destruct (Nat.eqb i index); eexists; (split; [reflexivity|]);
    repeat split.
Qed.

Lemma tick_is_reversible_witness :
  toggle 1 true (toggle 1 false ready_state) = ready_state.
Proof.
  apply (tick_is_reversible ready_state 1 true).
  intros char Hc. vm_compute in Hc. injection Hc as <-. reflexivity.
Defined.

(** X16.  Switching the background off keeps the uploaded background
    but takes it out of the request, which then consists of the prompt
    and the selected characters; switching it on again gives back the
    state of before. *)
Theorem background_switch_is_reversible (st : AppState) :
  let off := run_setters st (handleToggleBackgroundUse false) in
  bgImage off = None
  /\ request_parts (generate_params off)
     = TextPart (finalPrompt off)
       :: List.map (fun char => image_part (to_image_ref char))
            (List.filter is_selected (st_characterImages st))
  /\ bg_file (st_backgroundImage off) = bg_file (st_backgroundImage st)
  /\ bg_base64 (st_backgroundImage off) = bg_base64 (st_backgroundImage st)
  /\ (bg_useBackground (st_backgroundImage st) = true ->
      run_setters off (handleToggleBackgroundUse true) = st).
Proof.
  cbv zeta.
  assert (Hbg : bgImage (run_setters st (handleToggleBackgroundUse false))
                = None).
  { unfold bgImage. cbn.
    destruct (bg_file (st_backgroundImage st)); [|reflexivity].
    destruct (bg_base64 (st_backgroundImage st)); reflexivity. }
  split; [exact Hbg|]. split; [|split; [reflexivity|split; [reflexivity|]]].
  - rewrite request_parts_of_state, Hbg. reflexivity.
  - intros Huse. destruct st as [chars [f b p u] pr g l e s r].
    cbn in Huse. subst u. reflexivity.
Qed.

Lemma background_switch_is_reversible_witness :
  run_setters
    (run_setters
       (step ready_state
          (FileChosen background None (Some [png "bg.png"])
             (Resolved (utf16 "data:image/png;base64,Qkc="))
             (utf16 "blob:bg")))
       (handleToggleBackgroundUse false))
    (handleToggleBackgroundUse true)
  = step ready_state
      (FileChosen background None (Some [png "bg.png"])
         (Resolved (utf16 "data:image/png;base64,Qkc=")) (utf16 "blob:bg")).
Proof.
  apply (background_switch_is_reversible
           (step ready_state
              (FileChosen background None (Some [png "bg.png"])
                 (Resolved (utf16 "data:image/png;base64,Qkc="))
                 (utf16 "blob:bg")))).
  reflexivity.
Defined.

(* ================================================================== *)
(** ** The saved images: delete                                        *)
(* ================================================================== *)

Lemma js_string_eqb_eq (a b : js_string) :
  js_string_eqb a b = true <-> a = b.
Proof.
  revert b. induction a as [|x a IH]; intros [|y b]; cbn [js_string_eqb];
    try (split; [discriminate|discriminate]); [tauto|].
  rewrite andb_true_iff, code_unit_eqb_eq, IH.
  split; [intros [-> ->]; reflexivity|intros H; injection H; auto].
Qed.

Lemma filter_keeps_all {A : Type} (p : A -> bool) (l : list A) :
  (forall x, In x l -> p x = true) -> List.filter p l = l.
Proof.
  induction l as [|x l IH]; intros H; [reflexivity|].
  cbn [List.filter]. rewrite (H x (or_introl eq_refl)). f_equal.
  apply IH. intros y Hy. apply H. now right.
Qed.

Lemma handleDeleteSavedImage_calls (st : AppState) (id_ : js_string)
  (b : Browser) :
  fst (handleDeleteSavedImage st id_ true b)
  = [setSavedImages
       (List.filter (fun img => negb (js_string_eqb (id img) id_))
                    (st_savedImages st))].
Proof.
  unfold handleDeleteSavedImage.
  destruct (localStorage_setItem _ b); reflexivity.
Qed.

(** X17.  Deleting a saved image by id, once confirmed, removes every
    record with that id and no other: the records kept are those with
    another id, in their order.  The reduced list is persisted when the
    browser accepts the write; when it refuses, the persisted list
    stays and the failure is announced.  Without confirmation nothing
    happens at all. *)
Theorem delete_removes_the_records_of_an_id
  (st : AppState) (id_ : js_string) (b : Browser) :
  let kept :=
    List.filter (fun img => negb (js_string_eqb (id img) id_))
                (st_savedImages st) in
  let calls := fst (handleDeleteSavedImage st id_ true b) in
  let b' := snd (handleDeleteSavedImage st id_ true b) in
  (forall live, st_savedImages (run live calls) = kept)
  /\ (forall img, In img kept <-> In img (st_savedImages st) /\ id img <> id_)
  /\ (storage_accepts b kept = true ->
      local_storage b' = Some kept /\ alerts b' = alerts b)
  /\ (storage_accepts b kept = false ->
      local_storage b' = local_storage b
      /\ alerts b' = alerts b ++ [delete_failed_message])
  /\ handleDeleteSavedImage st id_ false b = ([], b).
Proof.
  cbv zeta. rewrite handleDeleteSavedImage_calls.
  split; [reflexivity|]. split; [|split; [|split; [|reflexivity]]].
  - intros img. rewrite filter_In, negb_true_iff.
    split; intros [Hin Hid]; (split; [exact Hin|]).
    + intros E. apply js_string_eqb_eq in E. congruence.
    + apply not_true_iff_false. intros E.
      apply js_string_eqb_eq in E. exact (Hid E).
  - intros Hok. unfold handleDeleteSavedImage, localStorage_setItem.
    rewrite Hok. split; reflexivity.
  - intros Hno. unfold handleDeleteSavedImage, localStorage_setItem.
    rewrite Hno. split; reflexivity.
Qed.

Lemma delete_removes_the_records_of_an_id_witness :
  let st := run initial_state
              [setSavedImages [stored "5-0" "u" 5; stored "7-1" "v" 7;
                               stored "5-0" "w" 6]] in
  local_storage
    (snd (handleDeleteSavedImage st (utf16 "5-0") true
            (browser_with_room 3 (st_savedImages st))))
  = Some [stored "7-1" "v" 7].
Proof.
  cbv zeta.
  apply (delete_removes_the_records_of_an_id
           (run initial_state
              [setSavedImages [stored "5-0" "u" 5; stored "7-1" "v" 7;
                               stored "5-0" "w" 6]])
           (utf16 "5-0")
           (browser_with_room 3
              [stored "5-0" "u" 5; stored "7-1" "v" 7; stored "5-0" "w" 6])).
  reflexivity.
Defined.

(** X18.  Saving an image and then deleting it by its id gives back the
    saved images of before, provided no earlier record carries the same
    id [<Date.now()>-<index>]. *)
Theorem delete_undoes_save
  (st : AppState) (imageUrl : js_string) (index : nat)
  (now_id now_timestamp : Z) (b b2 : Browser) :
  (forall img, In img (st_savedImages st) ->
     id img <> id (newImage imageUrl index now_id now_timestamp)) ->
  let saved :=
    run st (fst (handleSaveImage st imageUrl index now_id now_timestamp b)) in
  st_savedImages
    (run saved
       (fst (handleDeleteSavedImage saved
               (id (newImage imageUrl index now_id now_timestamp)) true b2)))
  = st_savedImages st.
Proof.
  intros Hfresh. cbv zeta.
  rewrite handleDeleteSavedImage_calls, handleSaveImage_calls.
  cbn [run fold_left apply_set st_savedImages].
  rewrite filter_app. cbn [List.filter].
  rewrite js_string_eqb_refl. cbn [negb]. rewrite app_nil_r.
  apply filter_keeps_all. intros img Hin. apply negb_true_iff.
  apply not_true_iff_false. intros E. apply js_string_eqb_eq in E.
  exact (Hfresh img Hin E).
Qed.

Lemma delete_undoes_save_witness :
  let st := run initial_state [setSavedImages [stored "5-0" "u" 5]] in
  st_savedImages
    (run (run st (fst (handleSaveImage st (utf16 "v") 0 6 6
                         (browser_with_room 5 []))))
       (fst (handleDeleteSavedImage
               (run st (fst (handleSaveImage st (utf16 "v") 0 6 6
                               (browser_with_room 5 []))))
               (id (newImage (utf16 "v") 0 6 6)) true
               (browser_with_room 5 []))))
  = [stored "5-0" "u" 5].
Proof.
  cbv zeta.
  apply (delete_undoes_save
           (run initial_state [setSavedImages [stored "5-0" "u" 5]])
           (utf16 "v") 0 6 6 (browser_with_room 5 [])
           (browser_with_room 5 [])).
  intros img Hin. cbn in Hin. destruct Hin as [<-|[]].
  vm_compute. discriminate.
Defined.
